(** * Superior Predictive Ability test: a shallow embedding

    The development embeds [superior_predictive_ability] of
    [superior_predictive_ability.py] and proves properties of its
    elimination loop.

    The function computes with [float64] values through numpy, pandas and
    scipy.  The arithmetic and the library routines it calls are kept behind
    the interface [Numeric]; the control flow, the indexing and the list
    manipulation are the function's own and are modelled line by line.  The
    theorems hold for every implementation of the interface, unless they
    speak of [nan]; the instance [binary64] runs the embedding on IEEE 754
    double precision numbers.
    What the function prints is not part of the value of a call and is left
    out. *)

From Stdlib Require Import List String ZArith Lia Bool Arith Permutation.
From Stdlib Require Import Floats.
Import ListNotations.
Open Scope string_scope.
Open Scope list_scope.

(** ** Python exceptions and results *)

(** The exceptions the function body can raise on its own account. *)
Inductive exn : Type :=
| KeyError        (* a label that is not in an index *)
| IndexError      (* a position outside a list or an array *)
| ValueError      (* [max] of an empty sequence *)
| ZeroDivisionError.

Inductive result (A : Type) : Type :=
| Ok (a : A)
| Raise (e : exn).
Arguments Ok {A} a.
Arguments Raise {A} e.

Definition bind {A B : Type} (r : result A) (k : A -> result B) : result B :=
  match r with
  | Ok a => k a
  | Raise e => Raise e
  end.

Notation "x <- r ;; k" := (bind r (fun x => k))
  (at level 61, r at next level, right associativity).

(** [[f(x) for x in l]] where [f] may raise: stops at the first exception. *)
Fixpoint mapM {A B : Type} (f : A -> result B) (l : list A) : result (list B) :=
  match l with
  | [] => Ok []
  | x :: l' => y <- f x ;; ys <- mapM f l' ;; Ok (y :: ys)
  end.

(** What a call of a Python function hands back: the value of a [return]
    statement, or [None] when control reaches the end of the body. *)
Inductive pyvalue : Type :=
| PyNone
| PyList (l : list string).

(** The labels of an index are pairwise distinct. *)
Fixpoint distinct (labels : list string) : bool :=
  match labels with
  | [] => true
  | label :: labels' =>
      negb (existsb (String.eqb label) labels') && distinct labels'
  end.

(** ** The numeric interface *)

(** [num] stands for [float]/[np.float64].  The fields are the operations
    the function applies to such values, and the numpy, pandas and scipy
    routines it calls. *)
Class Numeric : Type := {
  num : Type;
  (** int to float conversion, as in [np.log(n)] or [alpha / k_tilde] *)
  of_int : Z -> num;
  add : num -> num -> num;
  sub : num -> num -> num;
  mul : num -> num -> num;
  div : num -> num -> num;
  (** [x > y] and [x >= y] *)
  gt : num -> num -> bool;
  ge : num -> num -> bool;
  np_sqrt : num -> num;
  np_log : num -> num;
  (** [DataFrame.mean(axis=0)] and [DataFrame.std(axis=0)] on one column *)
  column_mean : list num -> num;
  column_std : list num -> num;
  (** [np.mean] of a Series or of a slice of an array *)
  np_mean : list num -> num;
  (** [np.corrcoef(values, rowvar=False)]: from the list of columns to the
      list of rows of the correlation matrix *)
  np_corrcoef : list (list num) -> list (list num);
  (** [scipy.stats.norm.ppf] *)
  norm_ppf : num -> num;
  (** [Series.sort_values(ascending=False)] *)
  sort_values : list (string * num) -> list (string * num);
  (** sorting rearranges the entries of a Series *)
  sort_values_perm : forall s, Permutation (sort_values s) s;
  (** two or more columns have a square correlation matrix *)
  np_corrcoef_square : forall cols,
    2 <= List.length cols ->
    List.length (np_corrcoef cols) = List.length cols /\
    Forall (fun row => List.length row = List.length cols) (np_corrcoef cols);
  (** [>=] is transitive ([nan] compares false with everything) *)
  ge_trans : forall x y z, ge x y = true -> ge y z = true -> ge x z = true;
  (** multiplying by [1.0] changes nothing *)
  mul_one_r : forall x, mul x (of_int 1) = x
}.

Declare Scope num_scope.
Delimit Scope num_scope with num.
Infix "+" := add : num_scope.
Infix "-" := sub : num_scope.
Infix "*" := mul : num_scope.
Infix "/" := div : num_scope.
Infix ">?" := gt (at level 70) : num_scope.
Infix ">=?" := ge (at level 70) : num_scope.

(** ** Series and data frames *)

Section Model.
Context {NUM : Numeric}.

(** A pandas Series of floats indexed by strategy names. *)
Definition Series : Type := list (string * num).

Definition index (s : Series) : list string := map fst s.
Definition values (s : Series) : list num := map snd s.

(** A DataFrame of floats with [index_length] rows: a column is a name and
    its entries, one per row.  The names of the columns are the identifiers
    of the strategies and no two columns share one. *)
Record DataFrame : Type := mkDataFrame {
  index_length : nat;
  columns : list (string * list num);
  columns_distinct : distinct (map fst columns) = true
}.

(** [df.shape] *)
Definition shape (df : DataFrame) : nat * nat :=
  (index_length df, List.length (columns df)).

(** An operation on the entries keeps the names of the columns. *)
Lemma map_entries_names (f : list num -> list num) (cols : list (string * list num)) :
  map fst (map (fun col => (fst col, f (snd col))) cols) = map fst cols.
Proof. rewrite map_map. reflexivity. Qed.

(** [df - x] *)
Definition frame_sub (df : DataFrame) (x : num) : DataFrame :=
  {| index_length := index_length df;
     columns := map (fun col => (fst col, map (fun v => (v - x)%num) (snd col)))
                    (columns df);
     columns_distinct :=
       eq_trans (f_equal distinct (map_entries_names _ (columns df)))
                (columns_distinct df) |}.

(** [df.mean(axis=0)] and [df.std(axis=0)] *)
Definition frame_mean (df : DataFrame) : Series :=
  map (fun col => (fst col, column_mean (snd col))) (columns df).
Definition frame_std (df : DataFrame) : Series :=
  map (fun col => (fst col, column_std (snd col))) (columns df).

(** [a / b] for two Series over the same index *)
Definition series_div (a b : Series) : Series :=
  map (fun p => (fst (fst p), (snd (fst p) / snd (snd p))%num)) (combine a b).

(** Lookup of one label, [KeyError] when it is absent. *)
Fixpoint loc {A : Type} (l : list (string * A)) (label : string) : result A :=
  match l with
  | [] => Raise KeyError
  | (k, v) :: l' => if String.eqb k label then Ok v else loc l' label
  end.

(** [s[labels]]: the Series restricted to [labels], in their order *)
Definition series_select (s : Series) (labels : list string) : result Series :=
  mapM (fun label => v <- loc s label ;; Ok (label, v)) labels.

(** [df[labels].values], column by column *)
Definition frame_select_values (df : DataFrame) (labels : list string)
  : result (list (list num)) :=
  mapM (loc (columns df)) labels.

(** [l[i]] on a list or on the rows of an array *)
Definition getitem {A : Type} (l : list A) (i : nat) : result A :=
  match nth_error l i with
  | Some x => Ok x
  | None => Raise IndexError
  end.

(** The builtin [max] on a sequence of floats: the first element, replaced
    by each later element that compares greater. *)
Definition py_max (l : list num) : result num :=
  match l with
  | [] => Raise ValueError
  | x :: l' => Ok (fold_left (fun m y => if (y >? m)%num then y else m) l' x)
  end.

(** [x / k] for a float [x] and an int [k] *)
Definition div_int (x : num) (k : nat) : result num :=
  match k with
  | O => Raise ZeroDivisionError
  | S _ => Ok (x / of_int (Z.of_nat k))%num
  end.

End Model.

(** ** The evaluator *)

Module SPA.
Section Evaluator.
Context {NUM : Numeric}.

(** The float literal [1.0]. *)
Definition one : num := of_int 1.

(** [np.ones_like(s)] *)
Definition ones_like (s : Series) : list num := map (fun _ => one) s.

(** [x * s], [a - b] and [a + b] on Series over the same index *)
Definition series_scale (x : num) (s : Series) : Series :=
  map (fun p => (fst p, (x * snd p)%num)) s.
Definition series_sub (a b : Series) : Series :=
  map (fun p => (fst (fst p), (snd (fst p) - snd (snd p))%num)) (combine a b).
Definition series_add (a b : Series) : Series :=
  map (fun p => (fst (fst p), (snd (fst p) + snd (snd p))%num)) (combine a b).

(** The arguments of [superior_predictive_ability]. *)
Variable log_returns_df : DataFrame.
Variables risk_free_rate null_sharpe alpha : num.

(** *** Lines 43-51: Sharpe ratios, ranking and correlation matrix *)

Definition n : nat := fst (shape log_returns_df).
Definition n_strategies : nat := snd (shape log_returns_df).

Definition excess_returns : DataFrame := frame_sub log_returns_df risk_free_rate.
Definition mean_returns : Series := frame_mean excess_returns.
Definition std_devs : Series := frame_std excess_returns.
Definition sharpe_ratios : Series := series_div mean_returns std_devs.
Definition strategies_list : list string := index (sort_values sharpe_ratios).

(** [np.corrcoef(log_returns_df[strategies_list].values, rowvar=False)]:
    the raw returns, columns in ranked order. *)
Definition correlation_matrix : result (list (list num)) :=
  ranked <- frame_select_values log_returns_df strategies_list ;;
  Ok (np_corrcoef ranked).

(** *** Lines 56-74: the quantities of iteration [i] *)

Record Iteration : Type := mkIteration {
  subset_strategies_list : list string;
  subset_n_strategies : nat;
  subset_sharpe_ratios : Series;
  zeta_bar : num;
  zeta_ones_like : Series;
  rho : num;
  c : num;
  term1 : Series;
  term2 : Series;
  xi : Series;
  initial_threshold : num;
  strategies_passed_list : list string;
  k_tilde : nat
}.

Definition iteration (matrix : list (list num)) (i : nat) : result Iteration :=
  let subset_strategies_list := skipn i strategies_list in
  let subset_n_strategies := List.length subset_strategies_list in
  subset_sharpe_ratios <- series_select sharpe_ratios subset_strategies_list ;;
  let zeta_bar := np_mean (values subset_sharpe_ratios) in
  let zeta_ones_like :=
    combine subset_strategies_list
            (map (fun o => (zeta_bar * o)%num) (ones_like subset_sharpe_ratios)) in
  row <- getitem matrix i ;;
  let rho := np_mean (skipn (i + 1) row) in
  let c :=
    (one / np_sqrt (one + (of_int (Z.of_nat subset_n_strategies) - one) * rho))%num in
  let term1 := series_scale c zeta_ones_like in
  let term2 :=
    series_scale (one / np_sqrt (one - rho))%num
                 (series_sub subset_sharpe_ratios zeta_ones_like) in
  let xi := series_add term1 term2 in
  let initial_threshold :=
    (c * null_sharpe
     - np_sqrt (of_int 2 * np_log (np_log (of_int (Z.of_nat n))) / of_int (Z.of_nat n)))%num in
  let strategies_passed_list :=
    index (filter (fun p => (snd p >? initial_threshold)%num) xi) in
  let k_tilde := List.length strategies_passed_list in
  Ok (mkIteration subset_strategies_list subset_n_strategies subset_sharpe_ratios
        zeta_bar zeta_ones_like rho c term1 term2 xi initial_threshold
        strategies_passed_list k_tilde).

(** *** Lines 75-85: the decision of iteration [i] *)

(** How one pass through the loop body ends: at its last line, with the list
    [statistically_significant] as it then is, or in a [return]. *)
Inductive step : Type :=
| Continue (statistically_significant : list string)
| Return (value : list string).

(** [norm.ppf(1.0 - alpha / k_tilde)] *)
Definition critical_value (k_tilde : nat) : result num :=
  q <- div_int alpha k_tilde ;;
  Ok (norm_ppf (one - q)%num).

Definition body (matrix : list (list num)) (i : nat)
  (statistically_significant : list string) : result step :=
  it <- iteration matrix i ;;
  if Nat.eqb (k_tilde it) 0 then Ok (Return statistically_significant)
  else
    m <- py_max (values (xi it)) ;;
    z <- critical_value (k_tilde it) ;;
    if (m - c it * null_sharpe >=? z)%num then
      top <- getitem (subset_strategies_list it) 0 ;;
      Ok (Continue (statistically_significant ++ [top]))
    else Ok (Return statistically_significant).

(** *** Line 55: the loop *)

(** How the [for] statement ends: in a [return] of the body, or after its
    last iteration, with the list [statistically_significant] as it then is. *)
Inductive outcome : Type :=
| Returned (value : list string)
| Exhausted (statistically_significant : list string).

Fixpoint for_range (body : nat -> list string -> result step) (range : list nat)
  (statistically_significant : list string) : result outcome :=
  match range with
  | [] => Ok (Exhausted statistically_significant)
  | i :: range' =>
      s <- body i statistically_significant ;;
      match s with
      | Return value => Ok (Returned value)
      | Continue statistically_significant' =>
          for_range body range' statistically_significant'
      end
  end.

(** The loop is at the top of iteration [i], the list being [acc]: the
    iterations [0 .. i-1] all ended at the last line of the body. *)
Definition reaches (matrix : list (list num)) (i : nat) (acc : list string) : Prop :=
  for_range (body matrix) (seq 0 i) [] = Ok (Exhausted acc).

(** The function body up to the end of the loop. *)
Definition run : result outcome :=
  matrix <- correlation_matrix ;;
  for_range (body matrix) (seq 0 (n_strategies - 2)) [].

(** The list [statistically_significant] when the function stops. *)
Definition accepted (o : outcome) : list string :=
  match o with
  | Returned value => value
  | Exhausted statistically_significant => statistically_significant
  end.

(** The value of the call: nothing follows the loop, so a loop that runs to
    its end leaves the function without a [return] statement. *)
Definition superior_predictive_ability : result pyvalue :=
  o <- run ;;
  match o with
  | Returned value => Ok (PyList value)
  | Exhausted _ => Ok PyNone
  end.

End Evaluator.
End SPA.

(** ** Two significance levels *)

Section Levels.
Context {NUM : Numeric}.

(** [norm.ppf(1.0 - alpha / k)], the critical value of the test when [k]
    strategies passed the threshold. *)
Definition critical (alpha : num) (k : nat) : num :=
  norm_ppf (SPA.one - alpha / of_int (Z.of_nat k))%num.

(** For each number of passed strategies that a panel allows, the critical
    value at [alpha2] is not above the one at [alpha1]. *)
Definition critical_values_ordered (log_returns_df : DataFrame)
  (alpha1 alpha2 : num) : Prop :=
  forall k, 1 <= k <= SPA.n_strategies log_returns_df ->
            (critical alpha1 k >=? critical alpha2 k)%num = true.

End Levels.

(** ** What an iteration decides and what it reads *)

Module Decision.
Section Verdict.
Context {NUM : Numeric}.
Variable log_returns_df : DataFrame.
Variables risk_free_rate null_sharpe alpha : num.

(** Whether iteration [i] ends at the last line of the body, with its
    candidate appended ([true]), or in a [return] ([false]); read off the
    body run on the empty list. *)
Definition verdict (matrix : list (list num)) (i : nat) : result bool :=
  s <- SPA.body log_returns_df risk_free_rate null_sharpe alpha matrix i [] ;;
  Ok (match s with SPA.Continue _ => true | SPA.Return _ => false end).

(** [correlation_matrix[i][i + 1:]], the entries that line 65 takes from
    the matrix in iteration [i]; [None] when the matrix has no row [i]. *)
Definition read_entries (matrix : list (list num)) (i : nat) : option (list num) :=
  option_map (skipn (i + 1)) (nth_error matrix i).

End Verdict.
End Decision.

(** ** An implementation of the interface: IEEE 754 binary64

    Addition, subtraction, multiplication, division, square root and the
    comparisons are the primitive binary64 operations, which is what Python
    and numpy compute.  The library routines are written out over them:
    means and standard deviations as sequential sums, [np.corrcoef] as numpy
    derives it from the covariance matrix, the logarithm by argument
    reduction and a series, and [norm.ppf] by Wichura's algorithm AS 241.
    The last two agree with numpy and scipy up to rounding in the last
    digits; the panels evaluated below leave every comparison a wide margin. *)

Module Binary64.
Local Open Scope float_scope.
Set Warnings "-inexact-float".

Definition of_int (z : Z) : float :=
  match z with
  | Z0 => 0
  | Zpos _ => of_uint63 (Uint63.of_Z z)
  | Zneg p => - of_uint63 (Uint63.of_Z (Zpos p))
  end.

Definition gt (x y : float) : bool := y <? x.
Definition ge (x y : float) : bool := y <=? x.

Definition sum (l : list float) : float := fold_left PrimFloat.add l 0.

(** Mean of the entries; [nan] for no entry. *)
Definition mean (l : list float) : float :=
  sum l / of_int (Z.of_nat (List.length l)).

(** Sample standard deviation, [ddof=1]; [nan] for fewer than two entries. *)
Definition std (l : list float) : float :=
  let m := mean l in
  PrimFloat.sqrt (sum (map (fun x => (x - m) * (x - m)) l)
        / of_int (Z.of_nat (List.length l) - 1)).

Definition centre (l : list float) : list float :=
  let m := mean l in map (fun x => x - m) l.

Definition dot (a b : list float) : float :=
  sum (map (fun p => fst p * snd p) (combine a b)).

(** [np.clip(x, -1, 1)] *)
Definition clip (x : float) : float :=
  if x <? -1 then -1 else if 1 <? x then 1 else x.

(** Pearson correlations of the columns: covariances with [ddof=1], each
    divided by the two standard deviations, then clipped to [[-1, 1]]. *)
Definition corrcoef (cols : list (list float)) : list (list float) :=
  let xs := map centre cols in
  let fact := fun a : list float => of_int (Z.of_nat (List.length a) - 1) in
  let stddev := fun a : list float => PrimFloat.sqrt (dot a a / fact a) in
  map (fun a => map (fun b => clip (dot a b / fact a / stddev a / stddev b)) xs) xs.

(** [c0*r^k + ... + ck], evaluated from the leading coefficient. *)
Definition horner (coefficients : list float) (r : float) : float :=
  fold_left (fun acc a => acc * r + a) coefficients 0.

(** Natural logarithm: [x = m * 2^e] with [m] in [[sqrt 1/2, sqrt 2)], and
    [ln m = 2 atanh z] for [z = (m - 1) / (m + 1)]. *)
Definition log (x : float) : float :=
  if is_nan x then nan
  else if x <? 0 then nan
  else if x =? 0 then neg_infinity
  else if x =? infinity then infinity
  else
    let (m, e) := Z.frexp x in
    let (m, e) := if m <? 0x1.6a09e667f3bcdp-1 then (m * 2, (e - 1)%Z) else (m, e) in
    let z := (m - 1) / (m + 1) in
    let w := z * z in
    let series :=
      horner [1 / 27; 1 / 25; 1 / 23; 1 / 21; 1 / 19; 1 / 17; 1 / 15; 1 / 13;
              1 / 11; 1 / 9; 1 / 7; 1 / 5; 1 / 3; 1] w in
    of_int e * 0x1.62e42fefa39efp-1 + 2 * z * series.

(** Inverse of the standard normal distribution function (AS 241, PPND16);
    [nan] outside [[0, 1]], infinite at the two ends. *)
Definition ppf (p : float) : float :=
  if is_nan p then nan
  else if p <? 0 then nan
  else if 1 <? p then nan
  else if p =? 0 then neg_infinity
  else if p =? 1 then infinity
  else
    let q := p - 0.5 in
    if abs q <=? 0.425 then
      let r := 0.180625 - q * q in
      q * horner [2.5090809287301226727e+3; 3.3430575583588128105e+4;
                  6.7265770927008700853e+4; 4.5921953931549871457e+4;
                  1.3731693765509461125e+4; 1.9715909503065514427e+3;
                  1.3314166789178437745e+2; 3.3871328727963666080e+0] r
        / horner [5.2264952788528545610e+3; 2.8729085735721942674e+4;
                  3.9307895800092710610e+4; 2.1213794301586595867e+4;
                  5.3941960214247511077e+3; 6.8718700749205790830e+2;
                  4.2313330701600911252e+1; 1] r
    else
      let r := PrimFloat.sqrt (- log (if q <? 0 then p else 1 - p)) in
      let x :=
        if r <=? 5 then
          let r := r - 1.6 in
          horner [7.74545014278341407640e-4; 2.27238449892691845833e-2;
                  2.41780725177450611770e-1; 1.27045825245236838258e+0;
                  3.64784832476320460504e+0; 5.76949722146069140550e+0;
                  4.63033784615654529590e+0; 1.42343711074968357734e+0] r
          / horner [1.05075007164441684324e-9; 5.47593808499534494600e-4;
                    1.51986665636164571966e-2; 1.48103976427480074590e-1;
                    6.89767334985100004550e-1; 1.67638483018380384940e+0;
                    2.05319162663775882187e+0; 1] r
        else
          let r := r - 5 in
          horner [2.01033439929228813265e-7; 2.71155556874348757815e-5;
                  1.24266094738807843860e-3; 2.65321895265761230930e-2;
                  2.96560571828504891230e-1; 1.78482653991729133580e+0;
                  5.46378491116411436990e+0; 6.65790464350110377720e+0] r
          / horner [2.04426310338993978564e-15; 1.42151175831644588870e-7;
                    1.84631831751005468180e-5; 7.86869131145613259100e-4;
                    1.48753612908506148525e-2; 1.36929880922735805310e-1;
                    5.99832206555887937690e-1; 1] r in
      if q <? 0 then - x else x.

(** Descending order with [nan] last: [y] has to stay ahead of [x]. *)
Definition ahead (y x : float) : bool :=
  (x <? y) || (is_nan x && negb (is_nan y)).

Fixpoint insert (p : string * float) (l : list (string * float))
  : list (string * float) :=
  match l with
  | [] => [p]
  | q :: l' => if ahead (snd q) (snd p) then q :: insert p l' else p :: q :: l'
  end.

(** Stable insertion sort, largest value first. *)
Definition sort_desc (s : list (string * float)) : list (string * float) :=
  fold_right insert [] s.

Lemma insert_perm (p : string * float) (l : list (string * float)) :
  Permutation (insert p l) (p :: l).
Proof.
  induction l as [|q l IH]; cbn [insert].
  - apply Permutation_refl.
  - destruct (ahead (snd q) (snd p)).
    + apply perm_trans with (q :: p :: l).
      * apply perm_skip, IH.
      * apply perm_swap.
    + apply Permutation_refl.
Qed.

Lemma sort_desc_perm (s : list (string * float)) : Permutation (sort_desc s) s.
Proof.
  induction s as [|p s IH]; cbn [sort_desc fold_right].
  - apply perm_nil.
  - apply perm_trans with (p :: sort_desc s).
    + apply insert_perm.
    + apply perm_skip, IH.
Qed.

Lemma corrcoef_square (cols : list (list float)) :
  2 <= List.length cols ->
  List.length (corrcoef cols) = List.length cols /\
  Forall (fun row => List.length row = List.length cols) (corrcoef cols).
Proof.
  intros _. unfold corrcoef. split.
  - now rewrite !length_map.
  - apply Forall_forall. intros row Hin. apply in_map_iff in Hin.
    destruct Hin as (a & <- & _). now rewrite !length_map.
Qed.

(** The order of binary64 numbers, read off their specification. *)
Lemma SFleb_trans (x y z : spec_float) :
  SFleb x y = true -> SFleb y z = true -> SFleb x z = true.
Proof.
  unfold SFleb.
  destruct x as [sx|sx| |sx mx ex], y as [sy|sy| |sy my ey], z as [sz|sz| |sz mz ez];
    cbn [SFcompare]; try discriminate; try reflexivity;
    try (destruct sx; discriminate || reflexivity);
    try (destruct sx, sy; discriminate || reflexivity);
    try (destruct sy, sz; discriminate || reflexivity);
    try (destruct sx, sy, sz; discriminate || reflexivity).
  destruct sx, sy, sz; try discriminate; try reflexivity;
    destruct (Z.compare_spec ex ey), (Z.compare_spec ey ez), (Z.compare_spec ex ez);
    try discriminate; try reflexivity; try lia; subst;
    rewrite ?Pos.compare_cont_spec; cbn [Pos.switch_Eq];
    destruct (Pos.compare_spec mx my), (Pos.compare_spec my mz),
      (Pos.compare_spec mx mz);
    cbn [CompOpp]; try discriminate; try reflexivity; lia.
Qed.

Lemma ge_transitive (x y z : float) : ge x y = true -> ge y z = true -> ge x z = true.
Proof.
  unfold ge. rewrite !leb_spec. intros Hxy Hyz. exact (SFleb_trans _ _ _ Hyz Hxy).
Qed.

(** Multiplication by one is exact: the product of the mantissa with
    [2^52] is shifted back by 52 bits, with nothing to round. *)
Lemma SFmul_one (x : spec_float) :
  valid_binary x = true ->
  SF64mul x (S754_finite false 4503599627370496 (-52)) = x.
Proof.
  destruct x as [s|s| |s m e]; unfold valid_binary, SF64mul;
    cbn [SFmul SpecFloat.valid_binary]; intros Hvalid;
    try (rewrite ?xorb_false_r; reflexivity).
  unfold bounded, canonical_mantissa in Hvalid.
  apply andb_prop in Hvalid. destruct Hvalid as (Hcanon & Hbound).
  apply Z.eqb_eq in Hcanon.
  rewrite xorb_false_r, Pos.mul_comm. cbn [Pos.mul].
  unfold binary_round_aux, shr_fexp. cbn [Zdigits2 digits2_pos].
  rewrite !Pos2Z.inj_succ.
  replace (_ + (e + -52))%Z with (Z.pos (digits2_pos m) + e)%Z by lia.
  rewrite Hcanon.
  replace (e - (e + -52))%Z with 52%Z by lia.
  cbn [shr shr_record_of_loc iter_pos shr_1 orb loc_of_shr_record shr_m
       round_nearest_even Zdigits2].
  replace (e + -52 + 52)%Z with e by lia.
  rewrite Hcanon, Z.sub_diag. cbn [shr shr_m]. now rewrite Hbound.
Qed.

Lemma mul_one (x : float) : x * of_int 1 = x.
Proof.
  apply Prim2SF_inj. rewrite mul_spec.
  change (Prim2SF (of_int 1)) with (S754_finite false 4503599627370496 (-52)).
  apply SFmul_one, Prim2SF_valid.
Qed.

End Binary64.

#[export] Instance binary64 : Numeric := {|
  num := float;
  of_int := Binary64.of_int;
  add := PrimFloat.add;
  sub := PrimFloat.sub;
  mul := PrimFloat.mul;
  div := PrimFloat.div;
  gt := Binary64.gt;
  ge := Binary64.ge;
  np_sqrt := PrimFloat.sqrt;
  np_log := Binary64.log;
  column_mean := Binary64.mean;
  column_std := Binary64.std;
  np_mean := Binary64.mean;
  np_corrcoef := Binary64.corrcoef;
  norm_ppf := Binary64.ppf;
  sort_values := Binary64.sort_desc;
  sort_values_perm := Binary64.sort_desc_perm;
  np_corrcoef_square := Binary64.corrcoef_square;
  ge_trans := Binary64.ge_transitive;
  mul_one_r := Binary64.mul_one
|}.


(** ** Panels for the examples *)

Module Examples.
Local Open Scope float_scope.
Set Warnings "-inexact-float".

(** Four strategies over eight periods.  The Sharpe ratios are about 4.58
    for A, 1.69 for B, 0.12 for C and -0.15 for D. *)
Definition panel : DataFrame :=
  {| index_length := 8;
     columns :=
       [("C", [0.01; -0.02; 0.03; 0.00; -0.01; 0.02; -0.03; 0.02]);
        ("A", [0.07; 0.05; 0.06; 0.04; 0.07; 0.05; 0.06; 0.08]);
        ("D", [-0.02; 0.01; 0.00; -0.03; 0.02; -0.01; 0.01; 0.00]);
        ("B", [0.03; 0.01; 0.05; 0.02; 0.03; 0.06; 0.01; 0.03])];
     columns_distinct := eq_refl |}.

(** Two strategies, the columns A and B of [panel]. *)
Definition pair : DataFrame :=
  {| index_length := 8;
     columns :=
       [("A", [0.07; 0.05; 0.06; 0.04; 0.07; 0.05; 0.06; 0.08]);
        ("B", [0.03; 0.01; 0.05; 0.02; 0.03; 0.06; 0.01; 0.03])];
     columns_distinct := eq_refl |}.

(** One strategy only. *)
Definition single : DataFrame :=
  {| index_length := 8;
     columns := [("A", [0.07; 0.05; 0.06; 0.04; 0.07; 0.05; 0.06; 0.08])];
     columns_distinct := eq_refl |}.

(** Three strategies over two periods: [ln (ln 2)] is negative. *)
Definition two_periods : DataFrame :=
  {| index_length := 2;
     columns := [("A", [0.07; 0.05]); ("B", [0.03; 0.01]); ("C", [0.01; -0.02])];
     columns_distinct := eq_refl |}.

(** [panel] with the third return of B missing. *)
Definition gap : DataFrame :=
  {| index_length := 8;
     columns :=
       [("C", [0.01; -0.02; 0.03; 0.00; -0.01; 0.02; -0.03; 0.02]);
        ("A", [0.07; 0.05; 0.06; 0.04; 0.07; 0.05; 0.06; 0.08]);
        ("D", [-0.02; 0.01; 0.00; -0.03; 0.02; -0.01; 0.01; 0.00]);
        ("B", [0.03; 0.01; nan; 0.02; 0.03; 0.06; 0.01; 0.03])];
     columns_distinct := eq_refl |}.

(** The correlation matrix of [panel], rows and columns in the order
    A, B, C, D of the ranking. *)
Definition panel_matrix : list (list float) :=
  Eval vm_compute in
    match SPA.correlation_matrix panel 0 with
    | Ok matrix => matrix
    | Raise _ => []
    end.

(** The first two rows of [panel_matrix] with the diagonal and what is left
    of it overwritten by zeros; the rows 2 and 3 are dropped. *)
Definition panel_upper : list (list float) :=
  Eval vm_compute in
    map (fun p => repeat 0 (fst p + 1) ++ skipn (fst p + 1) (snd p))
        (combine (seq 0 2) panel_matrix).

End Examples.

(** ** Properties of the embedding *)

Section Properties.
Context {NUM : Numeric}.

(** *** Lookups and selections *)

Lemma loc_In {A : Type} (l : list (string * A)) (label : string) :
  In label (map fst l) -> exists v, loc l label = Ok v /\ In (label, v) l.
Proof.
  induction l as [|[k v] l IH]; cbn [map fst In loc]; [tauto|].
  intros Hin. destruct (String.eqb_spec k label) as [->|Hne].
  - exists v. split; [reflexivity | now left].
  - destruct Hin as [Heq|Hin]; [contradiction|].
    destruct (IH Hin) as (w & Hw & Hin'). exists w. split; [exact Hw | now right].
Qed.

Lemma loc_Ok_In {A : Type} (l : list (string * A)) (label : string) (v : A) :
  loc l label = Ok v -> In (label, v) l.
Proof.
  induction l as [|[k w] l IH]; cbn [loc]; [discriminate|].
  destruct (String.eqb_spec k label) as [->|Hne]; intros H.
  - injection H as ->. now left.
  - right. now apply IH.
Qed.

Lemma mapM_Ok {A B : Type} (f : A -> result B) (l : list A) :
  (forall x, In x l -> exists y, f x = Ok y) -> exists ys, mapM f l = Ok ys.
Proof.
  induction l as [|x l IH]; cbn [mapM]; intros H.
  - now exists [].
  - destruct (H x (or_introl eq_refl)) as (y & ->).
    destruct IH as (ys & ->); [intros; apply H; now right|].
    now exists (y :: ys).
Qed.

Lemma mapM_Forall2 {A B : Type} (f : A -> result B) (l : list A) (ys : list B) :
  mapM f l = Ok ys -> Forall2 (fun x y => f x = Ok y) l ys.
Proof.
  revert ys. induction l as [|x l IH]; cbn [mapM]; intros ys H.
  - injection H as <-. constructor.
  - destruct (f x) as [y|] eqn:Hx; cbn [bind] in H; [|discriminate].
    destruct (mapM f l) as [ys'|]; cbn [bind] in H; [|discriminate].
    injection H as <-. constructor; [exact Hx | now apply IH].
Qed.

Lemma series_select_index (s : Series) (labels : list string) (t : Series) :
  series_select s labels = Ok t -> index t = labels.
Proof.
  unfold series_select, index. intros H. apply mapM_Forall2 in H.
  induction H as [|label p labels t Hp _ IH]; [reflexivity|].
  cbn [map]. rewrite IH. f_equal.
  destruct (loc s label); cbn [bind] in Hp; [|discriminate].
  now injection Hp as <-.
Qed.

(** *** The ranking *)

Lemma index_series_div (df : DataFrame) :
  index (series_div (frame_mean df) (frame_std df)) = map fst (columns df).
Proof.
  unfold index, series_div, frame_mean, frame_std.
  induction (columns df) as [|col l IH]; [reflexivity|].
  cbn [map combine fst]. now rewrite IH.
Qed.

Lemma index_sharpe_ratios (df : DataFrame) (risk_free_rate : num) :
  index (SPA.sharpe_ratios df risk_free_rate) = map fst (columns df).
Proof.
  unfold SPA.sharpe_ratios, SPA.mean_returns, SPA.std_devs.
  rewrite index_series_div. unfold SPA.excess_returns, frame_sub. cbn [columns].
  rewrite map_map. reflexivity.
Qed.

(** The ranking lists the column names, each as often as the frame has it. *)
Lemma strategies_list_perm (df : DataFrame) (risk_free_rate : num) :
  Permutation (SPA.strategies_list df risk_free_rate) (map fst (columns df)).
Proof.
  unfold SPA.strategies_list. rewrite <- (index_sharpe_ratios df risk_free_rate).
  unfold index. apply Permutation_map, sort_values_perm.
Qed.

Lemma strategies_list_length (df : DataFrame) (risk_free_rate : num) :
  List.length (SPA.strategies_list df risk_free_rate) = SPA.n_strategies df.
Proof.
  rewrite (Permutation_length (strategies_list_perm df risk_free_rate)).
  unfold SPA.n_strategies, shape. cbn [snd]. apply length_map.
Qed.

(** Every ranked name is a column of the frame: building the correlation
    matrix raises no [KeyError]. *)
Lemma correlation_matrix_Ok (df : DataFrame) (risk_free_rate : num) :
  exists matrix, SPA.correlation_matrix df risk_free_rate = Ok matrix.
Proof.
  unfold SPA.correlation_matrix, frame_select_values.
  destruct (mapM_Ok (loc (columns df)) (SPA.strategies_list df risk_free_rate))
    as (ranked & ->).
  - intros label Hin.
    apply (Permutation_in _ (strategies_list_perm df risk_free_rate)) in Hin.
    destruct (loc_In _ _ Hin) as (v & Hv & _). now exists v.
  - now exists (np_corrcoef ranked).
Qed.

(** *** One iteration *)

Variable log_returns_df : DataFrame.
Variables risk_free_rate null_sharpe : num.

Local Abbreviation ranking := (SPA.strategies_list log_returns_df risk_free_rate).
Local Abbreviation sharpe := (SPA.sharpe_ratios log_returns_df risk_free_rate).
Local Abbreviation iteration := (SPA.iteration log_returns_df risk_free_rate null_sharpe).
Local Abbreviation T := (SPA.n log_returns_df).
Local Abbreviation N := (SPA.n_strategies log_returns_df).

(** The quantities of a successful iteration, as the assignments of lines
    57-74 define them. *)
Lemma iteration_Ok (matrix : list (list num)) (i : nat) (it : SPA.Iteration) :
  iteration matrix i = Ok it ->
  SPA.subset_strategies_list it = skipn i ranking /\
  SPA.subset_n_strategies it = List.length (skipn i ranking) /\
  series_select sharpe (skipn i ranking) = Ok (SPA.subset_sharpe_ratios it) /\
  SPA.zeta_bar it = np_mean (values (SPA.subset_sharpe_ratios it)) /\
  SPA.zeta_ones_like it =
    combine (skipn i ranking)
      (map (fun o => (SPA.zeta_bar it * o)%num)
           (SPA.ones_like (SPA.subset_sharpe_ratios it))) /\
  (exists row, nth_error matrix i = Some row /\
               SPA.rho it = np_mean (skipn (i + 1) row)) /\
  SPA.c it =
    (SPA.one / np_sqrt (SPA.one
       + (of_int (Z.of_nat (SPA.subset_n_strategies it)) - SPA.one) * SPA.rho it))%num /\
  SPA.term1 it = SPA.series_scale (SPA.c it) (SPA.zeta_ones_like it) /\
  SPA.term2 it =
    SPA.series_scale (SPA.one / np_sqrt (SPA.one - SPA.rho it))%num
      (SPA.series_sub (SPA.subset_sharpe_ratios it) (SPA.zeta_ones_like it)) /\
  SPA.xi it = SPA.series_add (SPA.term1 it) (SPA.term2 it) /\
  SPA.initial_threshold it =
    (SPA.c it * null_sharpe
     - np_sqrt (of_int 2 * np_log (np_log (of_int (Z.of_nat T)))
                / of_int (Z.of_nat T)))%num /\
  SPA.strategies_passed_list it =
    index (filter (fun p => (snd p >? SPA.initial_threshold it)%num) (SPA.xi it)) /\
  SPA.k_tilde it = List.length (SPA.strategies_passed_list it).
Proof.
  unfold SPA.iteration. intros H.
  destruct (series_select sharpe (skipn i ranking)) as [ssr|] eqn:Hssr;
    cbn [bind] in H; [|discriminate].
  unfold getitem in H.
  destruct (nth_error matrix i) as [row|] eqn:Hrow; cbn [bind] in H; [|discriminate].
  injection H as <-. cbn.
  repeat (split; [reflexivity|]).
  split; [now exists row|].
  repeat (split; [reflexivity|]). reflexivity.
Qed.

(** The vector [xi] has one entry per strategy of the subset. *)
Lemma series_select_length (s : Series) (labels : list string) (t : Series) :
  series_select s labels = Ok t -> List.length t = List.length labels.
Proof.
  intros H. apply series_select_index in H. rewrite <- H. unfold index.
  symmetry. apply length_map.
Qed.

Lemma xi_length (matrix : list (list num)) (i : nat) (it : SPA.Iteration) :
  iteration matrix i = Ok it ->
  List.length (SPA.xi it) = List.length (skipn i ranking).
Proof.
  intros H. destruct (iteration_Ok _ _ _ H)
    as (_ & _ & Hssr & _ & Hz & _ & _ & Ht1 & Ht2 & Hxi & _).
  apply series_select_length in Hssr.
  rewrite Hxi, Ht1, Ht2, Hz. unfold SPA.series_add, SPA.series_scale, SPA.series_sub,
    SPA.ones_like.
  repeat (rewrite ?length_map, ?length_combine).
  rewrite Hssr. lia.
Qed.

Lemma k_tilde_le_xi (matrix : list (list num)) (i : nat) (it : SPA.Iteration) :
  iteration matrix i = Ok it -> SPA.k_tilde it <= List.length (SPA.xi it).
Proof.
  intros H. destruct (iteration_Ok _ _ _ H)
    as (_ & _ & _ & _ & _ & _ & _ & _ & _ & _ & _ & Hp & Hk).
  rewrite Hk, Hp. unfold index. rewrite length_map. apply filter_length_le.
Qed.


(** *** The decision *)

Variable alpha : num.

Local Abbreviation body := (SPA.body log_returns_df risk_free_rate null_sharpe alpha).
Local Abbreviation run := (SPA.run log_returns_df risk_free_rate null_sharpe alpha).
Local Abbreviation reaches :=
  (SPA.reaches log_returns_df risk_free_rate null_sharpe alpha).

Lemma py_max_Ok (l : list num) : l <> [] -> exists m, py_max l = Ok m.
Proof. destruct l as [|x l]; [congruence|]. intros _. cbn [py_max]. eauto. Qed.

Lemma critical_value_Ok (k : nat) :
  k <> 0 ->
  SPA.critical_value alpha k
  = Ok (norm_ppf (SPA.one - alpha / of_int (Z.of_nat k))%num).
Proof. destruct k as [|k]; [congruence|]. reflexivity. Qed.

(** What the body does with the quantities of its iteration: the two ways
    out of lines 75-85. *)
Lemma body_cases (matrix : list (list num)) (i : nat) (it : SPA.Iteration)
  (statistically_significant : list string) :
  iteration matrix i = Ok it ->
  (SPA.k_tilde it = 0 /\
   body matrix i statistically_significant = Ok (SPA.Return statistically_significant))
  \/
  (SPA.k_tilde it <> 0 /\
   exists m top,
     py_max (values (SPA.xi it)) = Ok m /\
     nth_error ranking i = Some top /\
     body matrix i statistically_significant =
     Ok (if (m - SPA.c it * null_sharpe
             >=? norm_ppf (SPA.one - alpha / of_int (Z.of_nat (SPA.k_tilde it))))%num
         then SPA.Continue (statistically_significant ++ [top])
         else SPA.Return statistically_significant)).
Proof.
  intros Hit. unfold SPA.body. rewrite Hit. cbn [bind].
  destruct (SPA.k_tilde it) as [|k] eqn:Hk; cbn [Nat.eqb]; [left; now split|].
  right. split; [discriminate|].
  pose proof (k_tilde_le_xi _ _ _ Hit) as Hle. rewrite Hk in Hle.
  destruct (py_max_Ok (values (SPA.xi it))) as (m & Hm).
  { unfold values. destruct (SPA.xi it); cbn in *; [lia | discriminate]. }
  pose proof (xi_length _ _ _ Hit) as Hlen.
  destruct (iteration_Ok _ _ _ Hit) as (Hsub & _).
  destruct (nth_error ranking i) as [top|] eqn:Htop.
  2:{ apply nth_error_None in Htop. rewrite length_skipn in Hlen. lia. }
  exists m, top. split; [exact Hm|]. split; [reflexivity|].
  rewrite Hm. cbn [bind]. rewrite critical_value_Ok by discriminate. cbn [bind].
  destruct (_ >=? _)%num; [|reflexivity].
  unfold getitem. rewrite Hsub, nth_error_skipn, Nat.add_0_r, Htop. reflexivity.
Qed.

Lemma body_Ok (matrix : list (list num)) (i : nat)
  (statistically_significant : list string) (s : SPA.step) :
  body matrix i statistically_significant = Ok s ->
  s = SPA.Return statistically_significant \/
  exists top, nth_error ranking i = Some top /\
              s = SPA.Continue (statistically_significant ++ [top]).
Proof.
  intros H. destruct (iteration matrix i) as [it|e] eqn:Hit.
  - destruct (body_cases matrix i it statistically_significant Hit)
      as [(_ & Hb)|(_ & m & top & _ & Htop & Hb)];
      rewrite Hb in H; injection H as <-; [now left|].
    destruct (_ >=? _)%num; [right; now exists top | now left].
  - unfold SPA.body in H. rewrite Hit in H. discriminate.
Qed.

(** *** The loop *)

Lemma for_range_app (f : nat -> list string -> result SPA.step)
  (l1 l2 : list nat) (acc : list string) :
  SPA.for_range f (l1 ++ l2) acc =
  (o <- SPA.for_range f l1 acc ;;
   match o with
   | SPA.Returned value => Ok (SPA.Returned value)
   | SPA.Exhausted acc' => SPA.for_range f l2 acc'
   end).
Proof.
  revert acc. induction l1 as [|i l1 IH]; intros acc; cbn [app SPA.for_range bind].
  - reflexivity.
  - destruct (f i acc) as [[acc'|value]|e]; cbn [bind]; [apply IH | reflexivity..].
Qed.

Lemma firstn_succ {A : Type} (l : list A) (i : nat) (x : A) :
  nth_error l i = Some x -> firstn (S i) l = firstn i l ++ [x].
Proof.
  revert i. induction l as [|y l IH]; intros [|i]; cbn [nth_error]; try discriminate.
  - now intros [= ->].
  - intros H. change (y :: firstn (S i) l = y :: firstn i l ++ [x]).
    now rewrite (IH i H).
Qed.

(** Invariant of the loop: at the top of iteration [i] the list holds the
    [i] best-ranked strategies, in rank order. *)
Lemma reaches_prefix (matrix : list (list num)) (i : nat) (acc : list string) :
  reaches matrix i acc -> acc = firstn i ranking /\ i <= List.length ranking.
Proof.
  unfold SPA.reaches. revert acc. induction i as [|i IH]; intros acc H.
  - cbn in H. injection H as <-. split; [reflexivity | lia].
  - rewrite seq_S, for_range_app in H. cbn [Nat.add] in H.
    destruct (SPA.for_range (body matrix) (seq 0 i) []) as [[v|acc0]|e] eqn:Hi;
      cbn [bind] in H; try discriminate.
    destruct (IH acc0 eq_refl) as (-> & Hlen).
    cbn [SPA.for_range] in H.
    destruct (body matrix i (firstn i ranking)) as [s|e] eqn:Hb;
      cbn [bind] in H; [|discriminate].
    destruct (body_Ok _ _ _ _ Hb) as [->|(top & Htop & ->)]; [discriminate|].
    injection H as <-. split.
    + symmetry. now apply firstn_succ.
    + apply Nat.le_succ_l, nth_error_Some. congruence.
Qed.

(** A [return] inside the loop happens in some iteration [j], and hands
    back the list as it was at the top of that iteration. *)
Lemma returned_inv (matrix : list (list num)) (k : nat) (value : list string) :
  SPA.for_range (body matrix) (seq 0 k) [] = Ok (SPA.Returned value) ->
  exists j, j < k /\ reaches matrix j value /\
            body matrix j value = Ok (SPA.Return value).
Proof.
  induction k as [|k IH]; [discriminate|].
  rewrite seq_S, for_range_app. cbn [Nat.add].
  destruct (SPA.for_range (body matrix) (seq 0 k) []) as [[v|acc]|e] eqn:Hk;
    cbn [bind]; try discriminate.
  - intros [= <-]. destruct (IH eq_refl) as (j & Hj & H1 & H2).
    exists j. repeat split; [lia | exact H1 | exact H2].
  - cbn [SPA.for_range].
    destruct (body matrix k acc) as [s|e] eqn:Hb; cbn [bind]; [|discriminate].
    destruct (body_Ok _ _ _ _ Hb) as [->|(top & _ & ->)]; [|discriminate].
    intros [= <-]. exists k. repeat split; [lia | exact Hk | exact Hb].
Qed.

(** Earlier tops of the loop are reached too. *)
Lemma reaches_earlier (matrix : list (list num)) (i j : nat) (acc : list string) :
  reaches matrix j acc -> i <= j -> reaches matrix i (firstn i acc).
Proof.
  intros Hj Hij. replace j with (i + (j - i)) in Hj by lia.
  unfold SPA.reaches in Hj. rewrite seq_app, for_range_app in Hj.
  destruct (SPA.for_range (body matrix) (seq 0 i) []) as [[v|acc0]|e] eqn:Hi;
    cbn [bind] in Hj; try discriminate.
  destruct (reaches_prefix _ _ _ Hi) as (-> & Hlen).
  assert (Hreach : reaches matrix (i + (j - i)) acc).
  { unfold SPA.reaches. rewrite seq_app, for_range_app, Hi. exact Hj. }
  destruct (reaches_prefix _ _ _ Hreach) as (-> & _).
  unfold SPA.reaches. rewrite Hi. do 2 f_equal.
  rewrite firstn_firstn. f_equal. lia.
Qed.


(** *** From the loop to the value of the call *)

Lemma run_unfold (matrix : list (list num)) :
  SPA.correlation_matrix log_returns_df risk_free_rate = Ok matrix ->
  run = SPA.for_range (body matrix) (seq 0 (N - 2)) [].
Proof. intros H. unfold SPA.run. now rewrite H. Qed.

Lemma exhausted_at (matrix : list (list num)) (acc : list string) :
  SPA.correlation_matrix log_returns_df risk_free_rate = Ok matrix ->
  reaches matrix (N - 2) acc -> run = Ok (SPA.Exhausted acc).
Proof. intros Hm Hr. now rewrite (run_unfold _ Hm). Qed.

Lemma return_at (matrix : list (list num)) (i : nat) (acc value : list string) :
  SPA.correlation_matrix log_returns_df risk_free_rate = Ok matrix ->
  i < N - 2 -> reaches matrix i acc ->
  body matrix i acc = Ok (SPA.Return value) ->
  run = Ok (SPA.Returned value).
Proof.
  intros Hm Hi Hr Hb. rewrite (run_unfold _ Hm).
  replace (N - 2) with (i + S (N - 2 - S i)) by lia.
  rewrite seq_app, for_range_app. unfold SPA.reaches in Hr. rewrite Hr.
  cbn [bind seq SPA.for_range Nat.add]. now rewrite Hb.
Qed.

Lemma continue_at (matrix : list (list num)) (i : nat) (acc acc' : list string) :
  reaches matrix i acc ->
  body matrix i acc = Ok (SPA.Continue acc') ->
  reaches matrix (S i) acc'.
Proof.
  unfold SPA.reaches. intros Hr Hb. rewrite seq_S, for_range_app, Hr.
  cbn [bind SPA.for_range Nat.add]. now rewrite Hb.
Qed.

Lemma reaches_functional (matrix : list (list num)) (i : nat) (acc acc' : list string) :
  reaches matrix i acc -> reaches matrix i acc' -> acc = acc'.
Proof. unfold SPA.reaches. intros H H'. rewrite H in H'. now injection H'. Qed.

(** *** No exception *)

Lemma series_select_Ok (i : nat) :
  exists t, series_select sharpe (skipn i ranking) = Ok t.
Proof.
  unfold series_select. apply mapM_Ok. intros label Hin.
  assert (Hr : In label ranking).
  { rewrite <- (firstn_skipn i ranking). apply in_or_app. now right. }
  apply (Permutation_in _ (strategies_list_perm log_returns_df risk_free_rate)) in Hr.
  rewrite <- (index_sharpe_ratios log_returns_df risk_free_rate) in Hr.
  destruct (loc_In sharpe label Hr) as (v & -> & _). cbn [bind]. eauto.
Qed.

Lemma iteration_total (matrix : list (list num)) (i : nat) :
  i < List.length matrix -> exists it, iteration matrix i = Ok it.
Proof.
  intros Hi. unfold SPA.iteration. destruct (series_select_Ok i) as (t & ->).
  cbn [bind]. unfold getitem.
  destruct (nth_error matrix i) eqn:Hrow; [cbn [bind]; eauto|].
  apply nth_error_None in Hrow. lia.
Qed.

Lemma body_total (matrix : list (list num)) (i : nat) (acc : list string) :
  i < List.length matrix -> exists s, body matrix i acc = Ok s.
Proof.
  intros Hi. destruct (iteration_total matrix i Hi) as (it & Hit).
  destruct (body_cases matrix i it acc Hit) as [(_ & ->)|(_ & m & top & _ & _ & ->)];
    eauto.
Qed.

Lemma for_range_total (matrix : list (list num)) (range : list nat) (acc : list string) :
  Forall (fun i => i < List.length matrix) range ->
  exists o, SPA.for_range (body matrix) range acc = Ok o.
Proof.
  intros H. revert acc. induction H as [|i range Hi _ IH]; intros acc;
    cbn [SPA.for_range]; [eauto|].
  destruct (body_total matrix i acc Hi) as ([acc'|value] & ->); cbn [bind]; eauto.
Qed.

(** The correlation matrix has one row per strategy, and each of them one
    entry per strategy, as soon as there are two strategies. *)
Lemma correlation_matrix_square (matrix : list (list num)) :
  SPA.correlation_matrix log_returns_df risk_free_rate = Ok matrix ->
  2 <= N ->
  List.length matrix = N /\ Forall (fun row => List.length row = N) matrix.
Proof.
  unfold SPA.correlation_matrix, frame_select_values. intros H HN.
  destruct (mapM (loc (columns log_returns_df)) ranking) as [ranked|] eqn:Hr;
    cbn [bind] in H; [|discriminate].
  injection H as <-. apply mapM_Forall2, Forall2_length in Hr.
  rewrite strategies_list_length in Hr. rewrite Hr. apply np_corrcoef_square. lia.
Qed.

(** The body of the function raises no exception of its own. *)
Lemma run_total : exists o, run = Ok o.
Proof.
  destruct (correlation_matrix_Ok log_returns_df risk_free_rate) as (matrix & Hm).
  rewrite (run_unfold _ Hm). apply for_range_total.
  apply Forall_forall. intros i Hi. apply in_seq in Hi.
  destruct (correlation_matrix_square _ Hm) as (-> & _); lia.
Qed.


(** *** The decision of an iteration *)

Local Abbreviation call :=
  (SPA.superior_predictive_ability log_returns_df risk_free_rate null_sharpe alpha).

Lemma call_of_run (o : SPA.outcome) :
  run = Ok o ->
  call = Ok (match o with SPA.Returned value => PyList value | SPA.Exhausted _ => PyNone end).
Proof. intros H. unfold SPA.superior_predictive_ability. rewrite H. now destruct o. Qed.

(** C3.  In an iteration that the loop reaches and whose [k_tilde] is not 0,
    the top-ranked strategy of the current subset is appended to the list and
    the loop goes on to the next iteration if and only if
    [max(xi) - c * null_sharpe >= norm.ppf(1.0 - alpha / k_tilde)];
    otherwise the call returns the list accumulated so far, without the
    candidate of this iteration. *)
Theorem bonferroni_decision (matrix : list (list num)) (i : nat)
  (statistically_significant : list string) (it : SPA.Iteration) :
  SPA.correlation_matrix log_returns_df risk_free_rate = Ok matrix ->
  i < N - 2 ->
  reaches matrix i statistically_significant ->
  iteration matrix i = Ok it ->
  SPA.k_tilde it <> 0 ->
  exists m top z,
    py_max (values (SPA.xi it)) = Ok m /\
    hd_error (SPA.subset_strategies_list it) = Some top /\
    z = norm_ppf (SPA.one - alpha / of_int (Z.of_nat (SPA.k_tilde it)))%num /\
    ((m - SPA.c it * null_sharpe >=? z)%num = true <->
     reaches matrix (S i) (statistically_significant ++ [top])) /\
    ((m - SPA.c it * null_sharpe >=? z)%num = false ->
     call = Ok (PyList statistically_significant)).
Proof.
  intros Hm Hi Hr Hit Hk.
  destruct (body_cases matrix i it statistically_significant Hit)
    as [(Hk0 & _)|(_ & m & top & Hmax & Htop & Hb)]; [contradiction|].
  exists m, top, (norm_ppf (SPA.one - alpha / of_int (Z.of_nat (SPA.k_tilde it))))%num.
  destruct (iteration_Ok _ _ _ Hit) as (Hsub & _).
  split; [exact Hmax|]. split; [now rewrite Hsub, hd_error_skipn|].
  split; [reflexivity|].
  destruct (_ >=? _)%num.
  - split; [split; [intros _; now apply (continue_at _ _ _ _ Hr) | reflexivity]|].
    discriminate.
  - split.
    + split; [discriminate|]. intros Hnext. unfold SPA.reaches in Hnext, Hr.
      rewrite seq_S, for_range_app, Hr in Hnext.
      cbn [bind SPA.for_range Nat.add] in Hnext. rewrite Hb in Hnext. discriminate.
    + intros _. apply (call_of_run (SPA.Returned statistically_significant)).
      exact (return_at _ _ _ _ Hm Hi Hr Hb).
Qed.


(** C6.  When an iteration that the loop reaches finds [k_tilde = 0], the
    call ends there: it returns the list accepted so far, as an ordinary
    value and not as an exception, whatever the later, smaller subsets would
    have given. *)
Theorem no_passed_strategy_stops (matrix : list (list num)) (i : nat)
  (statistically_significant : list string) (it : SPA.Iteration) :
  SPA.correlation_matrix log_returns_df risk_free_rate = Ok matrix ->
  i < N - 2 ->
  reaches matrix i statistically_significant ->
  iteration matrix i = Ok it ->
  SPA.k_tilde it = 0 ->
  body matrix i statistically_significant = Ok (SPA.Return statistically_significant) /\
  run = Ok (SPA.Returned statistically_significant) /\
  call = Ok (PyList statistically_significant).
Proof.
  intros Hm Hi Hr Hit Hk.
  destruct (body_cases matrix i it statistically_significant Hit)
    as [(_ & Hb)|(Hk0 & _)]; [|contradiction].
  pose proof (return_at _ _ _ _ Hm Hi Hr Hb) as Hrun.
  repeat split; [exact Hb | exact Hrun|].
  exact (call_of_run _ Hrun).
Qed.

(** *** The adjusted statistic *)

(** With the mean broadcast over the subset, lines 67-69 compute the
    statistic entry by entry. *)
Lemma xi_entries (cc k z : num) (s : Series) :
  SPA.series_add
    (SPA.series_scale cc (combine (index s) (map (fun _ => z) s)))
    (SPA.series_scale k (SPA.series_sub s (combine (index s) (map (fun _ => z) s))))
  = map (fun p => (fst p, (cc * z + k * (snd p - z))%num)) s.
Proof.
  unfold SPA.series_add, SPA.series_scale, SPA.series_sub, index.
  induction s as [|[name v] s IH]; [reflexivity|].
  cbn [map combine fst snd]. now rewrite IH.
Qed.

Lemma xi_index (cc k : num) (g : string * num -> num) (s : Series) :
  index (SPA.series_add
           (SPA.series_scale cc (combine (index s) (map g s)))
           (SPA.series_scale k (SPA.series_sub s (combine (index s) (map g s)))))
  = index s.
Proof.
  unfold SPA.series_add, SPA.series_scale, SPA.series_sub, index.
  induction s as [|[name v] s IH]; [reflexivity|].
  cbn [map combine fst snd]. now rewrite IH.
Qed.

(** The matrix holds the correlations of the raw returns, the columns taken
    in ranked order. *)
Lemma correlation_matrix_raw (matrix : list (list num)) :
  SPA.correlation_matrix log_returns_df risk_free_rate = Ok matrix ->
  exists ranked,
    Forall2 (fun name col => In (name, col) (columns log_returns_df)) ranking ranked /\
    matrix = np_corrcoef ranked.
Proof.
  unfold SPA.correlation_matrix, frame_select_values. intros H.
  destruct (mapM (loc (columns log_returns_df)) ranking) as [ranked|] eqn:Hr;
    cbn [bind] in H; [|discriminate].
  injection H as <-. exists ranked. split; [|reflexivity].
  apply mapM_Forall2 in Hr. induction Hr; constructor; auto using loc_Ok_In.
Qed.

(** C4.  In iteration [i] the subset is the ranking from position [i] on and
    has [m = N - i] strategies; [zeta_bar] is the mean of its Sharpe ratios,
    [rho] the mean of the entries [i+1 ...] of row [i] of the one correlation
    matrix, computed from the raw returns in ranked column order,
    [c = 1 / sqrt (1 + (m - 1) * rho)], and the adjusted statistic of each
    strategy of the subset is
    [c * zeta_bar + (1 / sqrt (1 - rho)) * (sharpe - zeta_bar)].
    (The code multiplies [zeta_bar] by an array of ones before use, which
    leaves it as it is.) *)
Theorem adjusted_statistic (matrix : list (list num)) (i : nat) (it : SPA.Iteration) :
  SPA.correlation_matrix log_returns_df risk_free_rate = Ok matrix ->
  iteration matrix i = Ok it ->
  SPA.subset_strategies_list it = skipn i ranking /\
  SPA.subset_n_strategies it = N - i /\
  series_select sharpe (skipn i ranking) = Ok (SPA.subset_sharpe_ratios it) /\
  SPA.zeta_bar it = np_mean (values (SPA.subset_sharpe_ratios it)) /\
  (exists ranked row,
     Forall2 (fun name col => In (name, col) (columns log_returns_df)) ranking ranked /\
     matrix = np_corrcoef ranked /\
     nth_error matrix i = Some row /\
     (2 <= N -> List.length row = N) /\
     SPA.rho it = np_mean (skipn (i + 1) row)) /\
  SPA.c it =
    (SPA.one / np_sqrt (SPA.one + (of_int (Z.of_nat (N - i)) - SPA.one) * SPA.rho it))%num /\
  SPA.xi it =
    map (fun p => (fst p,
                   (SPA.c it * SPA.zeta_bar it
                    + SPA.one / np_sqrt (SPA.one - SPA.rho it)
                      * (snd p - SPA.zeta_bar it))%num))
        (SPA.subset_sharpe_ratios it).
Proof.
  intros Hm Hit.
  destruct (iteration_Ok _ _ _ Hit)
    as (Hsub & Hn & Hssr & Hzb & Hz & (row & Hrow & Hrho) & Hc & Ht1 & Ht2 & Hxi & _).
  assert (Hsize : SPA.subset_n_strategies it = N - i).
  { rewrite Hn, length_skipn. now rewrite strategies_list_length. }
  split; [exact Hsub|]. split; [exact Hsize|]. split; [exact Hssr|].
  split; [exact Hzb|]. split.
  { destruct (correlation_matrix_raw _ Hm) as (ranked & Hcols & Hmat).
    exists ranked, row. repeat split; try assumption.
    intros HN. destruct (correlation_matrix_square _ Hm HN) as (_ & Hrows).
    rewrite Forall_forall in Hrows. apply Hrows. eapply nth_error_In, Hrow. }
  split; [now rewrite Hc, Hsize|].
  rewrite Hxi, Ht1, Ht2, Hz.
  rewrite <- (series_select_index _ _ _ Hssr).
  unfold SPA.ones_like. rewrite map_map.
  rewrite (map_ext _ (fun _ => SPA.zeta_bar it)) by (intros; apply mul_one_r).
  apply xi_entries.
Qed.

(** C5.  The threshold of an iteration is
    [c * null_sharpe - sqrt (2 * ln (ln T) / T)], with [T] the number of
    rows of the panel, and the strategies counted by [k_tilde] are exactly
    those of the subset whose statistic [xi] is greater than the threshold. *)
Theorem threshold_and_passed (matrix : list (list num)) (i : nat) (it : SPA.Iteration) :
  iteration matrix i = Ok it ->
  T = index_length log_returns_df /\
  SPA.initial_threshold it =
    (SPA.c it * null_sharpe
     - np_sqrt (of_int 2 * np_log (np_log (of_int (Z.of_nat T))) / of_int (Z.of_nat T)))%num /\
  SPA.strategies_passed_list it =
    index (filter (fun p => (snd p >? SPA.initial_threshold it)%num) (SPA.xi it)) /\
  (forall name,
     In name (SPA.strategies_passed_list it) <->
     exists x, In (name, x) (SPA.xi it) /\ (x >? SPA.initial_threshold it)%num = true) /\
  index (SPA.xi it) = SPA.subset_strategies_list it /\
  SPA.k_tilde it = List.length (SPA.strategies_passed_list it).
Proof.
  intros Hit.
  destruct (iteration_Ok _ _ _ Hit)
    as (Hsub & _ & Hssr & _ & Hz & _ & _ & Ht1 & Ht2 & Hxi & Hthr & Hp & Hk).
  split; [reflexivity|]. split; [exact Hthr|]. split; [exact Hp|]. split.
  { intros name. rewrite Hp. unfold index. rewrite in_map_iff. split.
    - intros ([name' x] & <- & Hin). apply filter_In in Hin. exists x. exact Hin.
    - intros (x & Hin & Hgt). exists (name, x). split; [reflexivity|].
      apply filter_In. now split. }
  split; [|exact Hk].
  rewrite Hsub, Hxi, Ht1, Ht2, Hz. rewrite <- (series_select_index _ _ _ Hssr).
  unfold SPA.ones_like. rewrite map_map. apply xi_index.
Qed.


(** *** The accepted list *)

(** Past an iteration that returns, no top of the loop is reached. *)
Lemma reaches_before_return (matrix : list (list num)) (i j : nat)
  (acc value value' : list string) :
  reaches matrix j value ->
  body matrix j value = Ok (SPA.Return value') ->
  reaches matrix i acc -> i <= j.
Proof.
  intros Hj Hb Hi. destruct (Nat.le_gt_cases i j) as [Hle|Hgt]; [exact Hle|].
  apply reaches_earlier with (i := S j) in Hi; [|lia].
  unfold SPA.reaches in Hi, Hj. rewrite seq_S, for_range_app, Hj in Hi.
  cbn [bind SPA.for_range Nat.add] in Hi. rewrite Hb in Hi. discriminate.
Qed.

(** How a run ends: in iteration [j < N - 2], returning the [j] best-ranked
    strategies, or after the last iteration, with the [N - 2] best-ranked
    strategies in the list. *)
Lemma run_Ok (matrix : list (list num)) (o : SPA.outcome) :
  SPA.correlation_matrix log_returns_df risk_free_rate = Ok matrix ->
  run = Ok o ->
  match o with
  | SPA.Returned value =>
      exists j, j < N - 2 /\ reaches matrix j value /\
                body matrix j value = Ok (SPA.Return value)
  | SPA.Exhausted acc => reaches matrix (N - 2) acc
  end.
Proof.
  intros Hm Ho. rewrite (run_unfold _ Hm) in Ho.
  destruct o as [value|acc]; [now apply returned_inv | exact Ho].
Qed.

(** The list at the end of a run holds the [j] best-ranked strategies, and
    no iteration past [j] is reached. *)
Lemma run_end (matrix : list (list num)) (o : SPA.outcome) :
  SPA.correlation_matrix log_returns_df risk_free_rate = Ok matrix ->
  run = Ok o ->
  exists j, j <= N - 2 /\ SPA.accepted o = firstn j ranking /\
            j <= List.length ranking /\
            forall i acc, reaches matrix i acc -> i <= N - 2 -> i <= j.
Proof.
  intros Hm Ho. pose proof (run_Ok _ _ Hm Ho) as Hend.
  destruct o as [value|acc]; cbn [SPA.accepted].
  - destruct Hend as (j & Hj & Hr & Hb). exists j.
    destruct (reaches_prefix _ _ _ Hr) as (Hv & Hlen).
    repeat split; [lia | exact Hv | exact Hlen|].
    intros i acc Hi _. exact (reaches_before_return _ _ _ _ _ _ Hr Hb Hi).
  - exists (N - 2). destruct (reaches_prefix _ _ _ Hend) as (Hv & Hlen).
    repeat split; [lia | exact Hv | exact Hlen | intros; lia].
Qed.

(** The list at the top of an iteration is a prefix of the final list. *)
Lemma reached_prefix_of_accepted (matrix : list (list num)) (o : SPA.outcome)
  (i : nat) (acc : list string) :
  SPA.correlation_matrix log_returns_df risk_free_rate = Ok matrix ->
  run = Ok o ->
  reaches matrix i acc ->
  i <= N - 2 ->
  acc = firstn i (SPA.accepted o) /\ List.length acc = i.
Proof.
  intros Hm Ho Hi HiN.
  destruct (run_end _ _ Hm Ho) as (j & _ & Hacc & _ & Hmax).
  destruct (reaches_prefix _ _ _ Hi) as (-> & Hilen).
  specialize (Hmax _ _ Hi HiN).
  rewrite Hacc, firstn_firstn, Nat.min_l by exact Hmax.
  split; [reflexivity|]. now rewrite length_firstn, Nat.min_l.
Qed.

(** C7.  The list of accepted strategies is a prefix of the ranking, in rank
    order: it is the list the call returns whenever it returns one, and the
    list at the top of every iteration is a prefix of it, so that an accepted
    strategy is never removed nor moved afterwards. *)
Theorem accepted_is_ranking_prefix :
  exists o,
    run = Ok o /\
    SPA.accepted o = firstn (List.length (SPA.accepted o)) ranking /\
    (forall l, call = Ok (PyList l) -> l = SPA.accepted o) /\
    (forall matrix i acc,
       SPA.correlation_matrix log_returns_df risk_free_rate = Ok matrix ->
       reaches matrix i acc ->
       i <= N - 2 ->
       acc = firstn i (SPA.accepted o) /\ List.length acc = i).
Proof.
  destruct run_total as (o & Ho). exists o. split; [exact Ho|].
  destruct (correlation_matrix_Ok log_returns_df risk_free_rate) as (matrix & Hm).
  destruct (run_end _ _ Hm Ho) as (j & _ & Hacc & Hlen & _).
  split; [|split].
  - rewrite Hacc at 2. now rewrite length_firstn, Nat.min_l.
  - intros l Hl. rewrite (call_of_run _ Ho) in Hl.
    destruct o; [now injection Hl as <- | discriminate].
  - intros matrix' i acc Hm' Hi HiN.
    exact (reached_prefix_of_accepted _ _ _ _ Hm' Ho Hi HiN).
Qed.

Lemma firstn_In_nth_error {A : Type} (l : list A) (i : nat) (x : A) :
  In x (firstn i l) -> exists k, k < i /\ nth_error l k = Some x.
Proof.
  intros Hin. apply In_nth_error in Hin. destruct Hin as (k & Hk).
  rewrite nth_error_firstn in Hk. destruct (Nat.ltb_spec k i); [|discriminate].
  now exists k.
Qed.

Lemma distinct_NoDup (labels : list string) :
  distinct labels = true -> NoDup labels.
Proof.
  induction labels as [|label labels IH]; cbn [distinct]; intros H; constructor.
  - apply andb_prop in H. destruct H as (H & _). intros Hin.
    apply negb_true_iff in H. rewrite <- not_true_iff_false in H. apply H.
    apply existsb_exists. exists label. split; [exact Hin | apply String.eqb_refl].
  - apply andb_prop in H. now apply IH.
Qed.

(** C10.  A list that the call returns has at most [N - 2] entries: it is
    returned in an iteration [i <= N - 3] and holds the strategies of ranks
    below [i].  The strategies of the two last ranks, [N - 2] and [N - 1],
    are not in it. *)
Theorem returned_list_bounds (l : list string) :
  SPA.superior_predictive_ability log_returns_df risk_free_rate null_sharpe alpha
  = Ok (PyList l) ->
  List.length l <= N - 2 /\
  (exists i, i + 3 <= N /\ l = firstn i ranking /\ List.length l = i) /\
  (forall j name, N - 2 <= j -> nth_error ranking j = Some name -> ~ In name l).
Proof.
  intros Hl.
  destruct run_total as (o & Ho). rewrite (call_of_run _ Ho) in Hl.
  destruct o as [value|acc]; [injection Hl as ->|discriminate].
  destruct (correlation_matrix_Ok log_returns_df risk_free_rate) as (matrix & Hm).
  destruct (run_Ok _ _ Hm Ho) as (i & Hi & Hr & _).
  destruct (reaches_prefix _ _ _ Hr) as (-> & Hlen).
  assert (Hsize : List.length (firstn i ranking) = i)
    by now rewrite length_firstn, Nat.min_l.
  split; [lia|]. split; [exists i; repeat split; [lia | exact Hsize]|].
  intros j name Hj Hname Hin.
  apply firstn_In_nth_error in Hin. destruct Hin as (k & Hk & Hname').
  assert (Hnd : NoDup ranking).
  { apply (Permutation_NoDup
             (Permutation_sym (strategies_list_perm log_returns_df risk_free_rate))).
    apply distinct_NoDup, columns_distinct. }
  assert (k = j); [|lia].
  apply (proj1 (NoDup_nth_error ranking) Hnd); [|congruence].
  apply nth_error_Some. congruence.
Qed.

(** *** Panels with at most two strategies *)

Lemma short_panel_run :
  N <= 2 -> run = Ok (SPA.Exhausted []).
Proof.
  intros HN. destruct (correlation_matrix_Ok log_returns_df risk_free_rate)
    as (matrix & Hm).
  rewrite (run_unfold _ Hm). now replace (N - 2) with 0 by lia.
Qed.

(** C2.  With exactly two strategies the loop runs no iteration.  The call
    then reaches the end of the function body, where no [return] statement
    stands: its value is [None], not the empty list. *)
Theorem two_strategies_return_None :
  N = 2 ->
  seq 0 (N - 2) = [] /\ run = Ok (SPA.Exhausted []) /\ call = Ok PyNone.
Proof.
  intros HN. split; [now rewrite HN|].
  assert (Hrun : run = Ok (SPA.Exhausted [])) by (apply short_panel_run; lia).
  split; [exact Hrun|]. exact (call_of_run _ Hrun).
Qed.

(** When every iteration accepts its candidate the loop runs to its end,
    and the call hands back [None]. *)
Lemma exhausted_returns_None (matrix : list (list num)) (acc : list string) :
  SPA.correlation_matrix log_returns_df risk_free_rate = Ok matrix ->
  reaches matrix (N - 2) acc -> call = Ok PyNone.
Proof.
  intros Hm Hr. exact (call_of_run _ (exhausted_at _ _ Hm Hr)).
Qed.

End Properties.

(** ** The significance level *)

Section Monotonicity.
Context {NUM : Numeric}.
Variable log_returns_df : DataFrame.
Variables risk_free_rate null_sharpe alpha1 alpha2 : num.

Local Abbreviation ranking := (SPA.strategies_list log_returns_df risk_free_rate).
Local Abbreviation N := (SPA.n_strategies log_returns_df).
Local Abbreviation run1 := (SPA.run log_returns_df risk_free_rate null_sharpe alpha1).
Local Abbreviation run2 := (SPA.run log_returns_df risk_free_rate null_sharpe alpha2).
Local Abbreviation reaches1 :=
  (SPA.reaches log_returns_df risk_free_rate null_sharpe alpha1).
Local Abbreviation reaches2 :=
  (SPA.reaches log_returns_df risk_free_rate null_sharpe alpha2).
Local Abbreviation ordered := (critical_values_ordered log_returns_df alpha1 alpha2).

(** An iteration that accepts its candidate at [alpha1] accepts it at
    [alpha2]: the statistic does not depend on the level. *)
Lemma reaches_monotone (matrix : list (list num)) (i : nat) (acc : list string) :
  ordered ->
  reaches1 matrix i acc -> reaches2 matrix i acc.
Proof.
  intros Hord. revert acc. induction i as [|i IH]; intros acc Hr; [exact Hr|].
  pose proof (reaches_earlier _ _ _ _ _ _ _ _ Hr (Nat.le_succ_diag_r i)) as Hi.
  set (acc0 := firstn i acc) in *.
  pose proof (IH _ Hi) as Hi2.
  unfold SPA.reaches in Hr, Hi. rewrite seq_S, for_range_app, Hi in Hr.
  cbn [bind SPA.for_range Nat.add] in Hr.
  destruct (SPA.body log_returns_df risk_free_rate null_sharpe alpha1 matrix i acc0)
    as [[acc'|value]|e] eqn:Hb; cbn [bind] in Hr; try discriminate.
  injection Hr as ->.
  apply (continue_at _ _ _ _ _ _ _ _ Hi2).
  destruct (SPA.iteration log_returns_df risk_free_rate null_sharpe matrix i)
    as [it|e] eqn:Hit.
  2:{ unfold SPA.body in Hb. rewrite Hit in Hb. discriminate. }
  destruct (body_cases _ _ _ alpha1 _ _ _ acc0 Hit)
    as [(_ & Hb1)|(Hk & m & top & Hm & Htop & Hb1)];
    rewrite Hb1 in Hb; [discriminate|].
  destruct (body_cases _ _ _ alpha2 _ _ _ acc0 Hit)
    as [(Hk0 & _)|(_ & m' & top' & Hm' & Htop' & Hb2)]; [contradiction|].
  rewrite Hm in Hm'. injection Hm' as <-. rewrite Htop in Htop'. injection Htop' as <-.
  rewrite Hb2. clear Hb1 Hb2.
  assert (Hk' : 1 <= SPA.k_tilde it <= N).
  { split; [lia|]. pose proof (k_tilde_le_xi _ _ _ _ _ _ Hit) as Hle.
    rewrite (xi_length _ _ _ _ _ _ Hit), length_skipn, strategies_list_length in Hle.
    lia. }
  specialize (Hord _ Hk'). unfold critical in Hord.
  destruct (_ >=? norm_ppf (SPA.one - alpha1 / _))%num eqn:Hge1 in Hb; [|discriminate].
  rewrite (ge_trans _ _ _ Hge1 Hord). exact Hb.
Qed.

(** Take two levels whose critical values are ordered,
    [norm.ppf(1 - alpha2/k) <= norm.ppf(1 - alpha1/k)] for each possible
    number [k] of passed strategies.  The list the loop has accumulated when
    the function stops at [alpha1] is a prefix of the one at [alpha2]. *)
Lemma alpha_monotone :
  ordered ->
  exists o1 o2,
    run1 = Ok o1 /\ run2 = Ok o2 /\
    (exists j, SPA.accepted o1 = firstn j (SPA.accepted o2)) /\
    (forall name, In name (SPA.accepted o1) -> In name (SPA.accepted o2)).
Proof.
  intros Hord.
  destruct (run_total log_returns_df risk_free_rate null_sharpe alpha1) as (o1 & Ho1).
  destruct (run_total log_returns_df risk_free_rate null_sharpe alpha2) as (o2 & Ho2).
  exists o1, o2. split; [exact Ho1|]. split; [exact Ho2|].
  destruct (correlation_matrix_Ok log_returns_df risk_free_rate) as (matrix & Hm).
  assert (Hreach : exists j, j <= N - 2 /\ reaches1 matrix j (SPA.accepted o1)).
  { pose proof (run_Ok _ _ _ _ _ _ Hm Ho1) as Hend.
    destruct o1 as [value|acc]; cbn [SPA.accepted].
    - destruct Hend as (j & Hj & Hr & _). exists j. split; [lia | exact Hr].
    - exists (N - 2). split; [lia | exact Hend]. }
  destruct Hreach as (j & Hj & Hr).
  apply (reaches_monotone _ _ _ Hord) in Hr.
  destruct (reached_prefix_of_accepted _ _ _ _ _ _ _ _ Hm Ho2 Hr Hj) as (Heq & _).
  split; [now exists j|].
  intros name Hin. rewrite Heq in Hin.
  rewrite <- (firstn_skipn j (SPA.accepted o2)). apply in_or_app. now left.
Qed.

(** X9.  Two levels with ordered critical values: when the call at [alpha1]
    returns a list, the call at [alpha2] returns a list of which it is a
    prefix, unless the loop at [alpha2] runs to its end; the call at
    [alpha2] then hands back [None], and the list of the call at [alpha1]
    is a prefix of the list its loop accumulated. *)
Theorem returned_list_monotone_in_alpha (l1 : list string) :
  ordered ->
  SPA.superior_predictive_ability log_returns_df risk_free_rate null_sharpe alpha1
  = Ok (PyList l1) ->
  (exists l2 j,
     SPA.superior_predictive_ability log_returns_df risk_free_rate null_sharpe alpha2
     = Ok (PyList l2) /\
     l1 = firstn j l2) \/
  (SPA.superior_predictive_ability log_returns_df risk_free_rate null_sharpe alpha2
   = Ok PyNone /\
   exists acc j, run2 = Ok (SPA.Exhausted acc) /\ l1 = firstn j acc).
Proof.
  intros Hord Hcall.
  destruct (alpha_monotone Hord) as (o1 & o2 & Ho1 & Ho2 & (j & Hj) & _).
  rewrite (call_of_run _ _ _ _ _ Ho1) in Hcall.
  destruct o1 as [value|acc1]; [injection Hcall as ->|discriminate].
  cbn [SPA.accepted] in Hj.
  destruct o2 as [l2|acc2]; cbn [SPA.accepted] in Hj.
  - left. exists l2, j. split; [exact (call_of_run _ _ _ _ _ Ho2) | exact Hj].
  - right. split; [exact (call_of_run _ _ _ _ _ Ho2)|]. now exists acc2, j.
Qed.

End Monotonicity.

(** ** Further properties of the function *)

Section Further.
Context {NUM : Numeric}.
Variable log_returns_df : DataFrame.
Variables risk_free_rate null_sharpe alpha : num.

Local Abbreviation ranking := (SPA.strategies_list log_returns_df risk_free_rate).
Local Abbreviation sharpe := (SPA.sharpe_ratios log_returns_df risk_free_rate).
Local Abbreviation N := (SPA.n_strategies log_returns_df).
Local Abbreviation iteration := (SPA.iteration log_returns_df risk_free_rate null_sharpe).
Local Abbreviation body := (SPA.body log_returns_df risk_free_rate null_sharpe alpha).
Local Abbreviation run := (SPA.run log_returns_df risk_free_rate null_sharpe alpha).
Local Abbreviation reaches :=
  (SPA.reaches log_returns_df risk_free_rate null_sharpe alpha).
Local Abbreviation call :=
  (SPA.superior_predictive_ability log_returns_df risk_free_rate null_sharpe alpha).
Local Abbreviation verdict :=
  (Decision.verdict log_returns_df risk_free_rate null_sharpe alpha).

(** *** The ranking *)

(** The ranking names every strategy of the panel, each exactly once. *)
Theorem ranking_lists_every_strategy_once :
  NoDup (SPA.strategies_list log_returns_df risk_free_rate) /\
  List.length (SPA.strategies_list log_returns_df risk_free_rate)
  = SPA.n_strategies log_returns_df /\
  (forall name,
     In name (SPA.strategies_list log_returns_df risk_free_rate) <->
     In name (map fst (columns log_returns_df))).
Proof.
  pose proof (strategies_list_perm log_returns_df risk_free_rate) as Hperm.
  split; [|split].
  - apply (Permutation_NoDup (Permutation_sym Hperm)).
    apply distinct_NoDup, columns_distinct.
  - apply strategies_list_length.
  - intros name. split; intros Hin.
    + exact (Permutation_in _ Hperm Hin).
    + exact (Permutation_in _ (Permutation_sym Hperm) Hin).
Qed.

(** *** The Sharpe ratios *)

Lemma sharpe_ratios_entries :
  SPA.sharpe_ratios log_returns_df risk_free_rate
  = map (fun col =>
           (fst col,
            (column_mean (map (fun v => v - risk_free_rate) (snd col))
             / column_std (map (fun v => v - risk_free_rate) (snd col)))%num))
        (columns log_returns_df).
Proof.
  unfold SPA.sharpe_ratios, SPA.mean_returns, SPA.std_devs, SPA.excess_returns,
    frame_mean, frame_std, frame_sub, series_div. cbn [columns]. rewrite !map_map.
  cbn [fst snd].
  induction (columns log_returns_df) as [|col l IH]; [reflexivity|].
  cbn [map combine fst snd]. now rewrite IH.
Qed.

(** *** The Sharpe ratios of a subset *)

Lemma loc_NoDup {A : Type} (l : list (string * A)) (label : string) (v : A) :
  NoDup (map fst l) -> In (label, v) l -> loc l label = Ok v.
Proof.
  induction l as [|[k w] l IH]; cbn [map fst In loc]; [tauto|].
  intros Hnd Hin. inversion Hnd as [|? ? Hk Hnd']; subst.
  destruct (String.eqb_spec k label) as [->|Hne].
  - destruct Hin as [Heq|Hin]; [now injection Heq as ->|].
    exfalso. apply Hk. apply in_map_iff. now exists (label, v).
  - destruct Hin as [Heq|Hin]; [congruence|]. now apply IH.
Qed.

(** The Sharpe ratio the function holds under the name of a strategy is the
    mean of that strategy's own excess returns divided by their standard
    deviation. *)
Theorem sharpe_ratio_of_strategy (name : string) (col : list num) :
  In (name, col) (columns log_returns_df) ->
  loc (SPA.sharpe_ratios log_returns_df risk_free_rate) name
  = Ok (column_mean (map (fun v => v - risk_free_rate) col)
        / column_std (map (fun v => v - risk_free_rate) col))%num.
Proof.
  intros Hin. apply loc_NoDup.
  - change (NoDup (index sharpe)). rewrite index_sharpe_ratios.
    apply distinct_NoDup, columns_distinct.
  - rewrite sharpe_ratios_entries. apply in_map_iff. now exists (name, col).
Qed.

(** Selecting the labels of some entries of a Series gives these entries. *)
Lemma series_select_incl (s t : Series) :
  NoDup (index s) -> incl t s -> series_select s (index t) = Ok t.
Proof.
  intros Hnd. unfold series_select, index.
  induction t as [|[label v] t IH]; intros Hincl; cbn [map mapM fst]; [reflexivity|].
  rewrite (loc_NoDup s label v Hnd) by (apply Hincl; now left). cbn [bind].
  rewrite IH by (intros p Hp; apply Hincl; now right). reflexivity.
Qed.

(** Line 59 selects the Sharpe ratios of the subset by label from the
    unsorted Series.  What it gets is the sorted Series from position [i] on:
    the ratios of the subset, largest first as [sort_values] left them. *)
Theorem subset_sharpe_ratios_sorted_suffix (matrix : list (list num)) (i : nat)
  (it : SPA.Iteration) :
  SPA.iteration log_returns_df risk_free_rate null_sharpe matrix i = Ok it ->
  SPA.subset_sharpe_ratios it
  = skipn i (sort_values (SPA.sharpe_ratios log_returns_df risk_free_rate)).
Proof.
  intros Hit. destruct (iteration_Ok _ _ _ _ _ _ Hit) as (_ & _ & Hssr & _).
  assert (Heq : skipn i ranking = index (skipn i (sort_values sharpe)))
    by apply skipn_map.
  rewrite Heq in Hssr.
  rewrite (series_select_incl sharpe (skipn i (sort_values sharpe))) in Hssr.
  - now injection Hssr.
  - rewrite index_sharpe_ratios. apply distinct_NoDup, columns_distinct.
  - intros p Hp. apply (Permutation_in _ (sort_values_perm sharpe)).
    rewrite <- (firstn_skipn i (sort_values sharpe)). apply in_or_app. now right.
Qed.

(** *** The passed strategies *)

Lemma xi_index_subset (matrix : list (list num)) (i : nat) (it : SPA.Iteration) :
  iteration matrix i = Ok it -> index (SPA.xi it) = skipn i ranking.
Proof.
  intros Hit. destruct (iteration_Ok _ _ _ _ _ _ Hit)
    as (_ & _ & Hssr & _ & Hz & _ & _ & Ht1 & Ht2 & Hxi & _).
  rewrite Hxi, Ht1, Ht2, Hz. rewrite <- (series_select_index _ _ _ Hssr).
  unfold SPA.ones_like. rewrite map_map. apply xi_index.
Qed.

Lemma NoDup_index_filter (f : string * num -> bool) (s : Series) :
  NoDup (index s) -> NoDup (index (filter f s)).
Proof.
  unfold index. induction s as [|p s IH]; cbn [map filter]; intros Hnd; [exact Hnd|].
  inversion Hnd as [|? ? Hp Hnd']; subst.
  destruct (f p); cbn [map]; [|now apply IH].
  constructor; [|now apply IH]. intros Hin. apply Hp.
  apply in_map_iff in Hin. destruct Hin as (q & Hq & Hin).
  apply filter_In in Hin. apply in_map_iff. exists q. tauto.
Qed.

(** The strategies that pass the threshold in iteration [i] are distinct
    strategies of the current subset: [k_tilde], by which [alpha] is
    divided, is at most the size [N - i] of the subset. *)
Theorem passed_strategies_bounds (matrix : list (list num)) (i : nat)
  (it : SPA.Iteration) :
  SPA.iteration log_returns_df risk_free_rate null_sharpe matrix i = Ok it ->
  SPA.k_tilde it <= SPA.n_strategies log_returns_df - i /\
  NoDup (SPA.strategies_passed_list it) /\
  incl (SPA.strategies_passed_list it) (SPA.subset_strategies_list it).
Proof.
  intros Hit. pose proof (xi_index_subset _ _ _ Hit) as Hindex.
  destruct (iteration_Ok _ _ _ _ _ _ Hit)
    as (Hsub & _ & _ & _ & _ & _ & _ & _ & _ & _ & _ & Hp & _).
  assert (Hnd : NoDup ranking).
  { apply (Permutation_NoDup
             (Permutation_sym (strategies_list_perm log_returns_df risk_free_rate))).
    apply distinct_NoDup, columns_distinct. }
  split; [|split].
  - pose proof (k_tilde_le_xi _ _ _ _ _ _ Hit) as Hle.
    rewrite (xi_length _ _ _ _ _ _ Hit), length_skipn, strategies_list_length in Hle.
    exact Hle.
  - rewrite Hp. apply NoDup_index_filter. rewrite Hindex.
    rewrite <- (firstn_skipn i ranking) in Hnd. now apply NoDup_app_remove_l in Hnd.
  - rewrite Hp, Hsub, <- Hindex. unfold index. intros name Hin.
    apply in_map_iff in Hin. destruct Hin as (p & Hname & Hin).
    apply filter_In in Hin. apply in_map_iff. exists p. tauto.
Qed.

(** *** No exception *)

(** X1.  On a panel of two or more periods, a call raises no exception of
    its own: every label it looks up is in the index, the matrix has the row
    of every iteration, [max] never gets an empty sequence and [alpha] is
    never divided by zero.  (The column names of a [DataFrame] are pairwise
    distinct; with a single period [np.corrcoef] need not return a square
    matrix.) *)
Theorem call_never_raises :
  2 <= SPA.n log_returns_df ->
  (exists v,
     SPA.superior_predictive_ability log_returns_df risk_free_rate null_sharpe alpha
     = Ok v) /\
  (exists matrix, SPA.correlation_matrix log_returns_df risk_free_rate = Ok matrix) /\
  (forall matrix i acc,
     SPA.correlation_matrix log_returns_df risk_free_rate = Ok matrix ->
     i < SPA.n_strategies log_returns_df - 2 ->
     exists it s,
       SPA.iteration log_returns_df risk_free_rate null_sharpe matrix i = Ok it /\
       SPA.body log_returns_df risk_free_rate null_sharpe alpha matrix i acc = Ok s).
Proof.
  intros _. split; [|split].
  - destruct (run_total log_returns_df risk_free_rate null_sharpe alpha) as (o & Ho).
    eexists. exact (call_of_run _ _ _ _ _ Ho).
  - apply correlation_matrix_Ok.
  - intros matrix i acc Hm Hi.
    destruct (correlation_matrix_square _ _ _ Hm) as (Hlen & _); [lia|].
    destruct (iteration_total log_returns_df risk_free_rate null_sharpe matrix i)
      as (it & Hit); [lia|].
    destruct (body_total log_returns_df risk_free_rate null_sharpe alpha matrix i acc)
      as (s & Hs); [lia|].
    now exists it, s.
Qed.

(** *** The list and the decisions *)

(** The body reads the list [statistically_significant] nowhere: it
    appends to it or returns it. *)
Lemma body_frame (matrix : list (list num)) (i : nat) (acc : list string) :
  body matrix i acc =
  match body matrix i [] with
  | Ok (SPA.Continue l) => Ok (SPA.Continue (acc ++ l))
  | Ok (SPA.Return _) => Ok (SPA.Return acc)
  | Raise e => Raise e
  end.
Proof.
  unfold SPA.body. destruct (iteration matrix i) as [it|e]; cbn [bind]; [|reflexivity].
  destruct (Nat.eqb (SPA.k_tilde it) 0); [reflexivity|].
  destruct (py_max (values (SPA.xi it))) as [m|e]; cbn [bind]; [|reflexivity].
  destruct (SPA.critical_value alpha (SPA.k_tilde it)) as [z|e]; cbn [bind];
    [|reflexivity].
  destruct (_ >=? _)%num; [|reflexivity].
  destruct (getitem (SPA.subset_strategies_list it) 0) as [top|e]; cbn [bind];
    reflexivity.
Qed.


(** What the verdict of an iteration says about the body on any list. *)
Lemma verdict_true (matrix : list (list num)) (i : nat) :
  verdict matrix i = Ok true ->
  exists top, nth_error ranking i = Some top /\
              forall acc, body matrix i acc = Ok (SPA.Continue (acc ++ [top])).
Proof.
  unfold Decision.verdict. intros H.
  destruct (body matrix i []) as [s|e] eqn:Hb; cbn [bind] in H; [|discriminate].
  destruct (body_Ok _ _ _ _ _ _ _ _ Hb) as [->|(top & Htop & ->)]; [discriminate|].
  exists top. split; [exact Htop|]. intros acc. now rewrite body_frame, Hb.
Qed.

Lemma verdict_false (matrix : list (list num)) (i : nat) :
  verdict matrix i = Ok false ->
  forall acc, body matrix i acc = Ok (SPA.Return acc).
Proof.
  unfold Decision.verdict. intros H acc.
  destruct (body matrix i []) as [[l|v]|e] eqn:Hb; cbn [bind] in H; try discriminate.
  now rewrite body_frame, Hb.
Qed.

Lemma verdict_of_body (matrix : list (list num)) (i : nat) (acc : list string)
  (s : SPA.step) :
  body matrix i acc = Ok s ->
  verdict matrix i
  = Ok (match s with SPA.Continue _ => true | SPA.Return _ => false end).
Proof.
  unfold Decision.verdict. rewrite body_frame.
  destruct (body matrix i []) as [[l|v]|e]; cbn [bind]; intros H;
    [injection H as <- | injection H as <- | discriminate]; reflexivity.
Qed.

Lemma reaches_succ_inv (matrix : list (list num)) (i : nat) (acc' : list string) :
  reaches matrix (S i) acc' ->
  exists acc, reaches matrix i acc /\ body matrix i acc = Ok (SPA.Continue acc').
Proof.
  unfold SPA.reaches. rewrite seq_S, for_range_app. cbn [Nat.add].
  destruct (SPA.for_range (body matrix) (seq 0 i) []) as [[v|acc]|e];
    cbn [bind SPA.for_range]; try discriminate.
  destruct (body matrix i acc) as [[l|v]|e] eqn:Hb; cbn [bind]; try discriminate.
  intros [= ->]. now exists acc.
Qed.

(** Iterations that all accept lead to the top of the next one. *)
Lemma verdicts_reach (matrix : list (list num)) (j : nat) :
  (forall i, i < j -> verdict matrix i = Ok true) ->
  reaches matrix j (firstn j ranking).
Proof.
  induction j as [|j IH]; intros H; [reflexivity|].
  destruct (verdict_true matrix j (H j (Nat.lt_succ_diag_r j))) as (top & Htop & Hb).
  rewrite (firstn_succ _ _ _ Htop).
  apply (continue_at _ _ _ _ _ _ _ _ (IH (fun i Hi => H i (Nat.lt_lt_succ_r _ _ Hi)))).
  apply Hb.
Qed.

Lemma reach_verdicts (matrix : list (list num)) (j : nat) (acc : list string) :
  reaches matrix j acc -> forall i, i < j -> verdict matrix i = Ok true.
Proof.
  intros Hr i Hi.
  pose proof (reaches_earlier _ _ _ _ _ (S i) _ _ Hr Hi) as Hnext.
  destruct (reaches_succ_inv _ _ _ Hnext) as (acc0 & _ & Hb).
  exact (verdict_of_body _ _ _ _ Hb).
Qed.

(** The call returns a list exactly when some iteration [j] rejects after
    the iterations before it all accepted, and the list is then the ranking
    up to rank [j]: the result is settled by the first rejection, whatever
    the later, smaller subsets would give. *)
Theorem returned_list_first_rejection (matrix : list (list num)) (l : list string) :
  SPA.correlation_matrix log_returns_df risk_free_rate = Ok matrix ->
  (SPA.superior_predictive_ability log_returns_df risk_free_rate null_sharpe alpha
   = Ok (PyList l) <->
   exists j,
     j < SPA.n_strategies log_returns_df - 2 /\
     l = firstn j (SPA.strategies_list log_returns_df risk_free_rate) /\
     (forall i, i < j ->
        Decision.verdict log_returns_df risk_free_rate null_sharpe alpha matrix i
        = Ok true) /\
     Decision.verdict log_returns_df risk_free_rate null_sharpe alpha matrix j
     = Ok false).
Proof.
  intros Hm. split.
  - intros Hl.
    destruct (run_total log_returns_df risk_free_rate null_sharpe alpha) as (o & Ho).
    rewrite (call_of_run _ _ _ _ _ Ho) in Hl.
    destruct o as [value|acc]; [injection Hl as ->|discriminate].
    destruct (run_Ok _ _ _ _ _ _ Hm Ho) as (j & Hj & Hr & Hb).
    destruct (reaches_prefix _ _ _ _ _ _ _ Hr) as (Hprefix & _).
    exists j. split; [exact Hj|]. split; [exact Hprefix|].
    split; [exact (reach_verdicts _ _ _ Hr) | exact (verdict_of_body _ _ _ _ Hb)].
  - intros (j & Hj & -> & Hbefore & Hstop).
    apply (call_of_run _ _ _ _ (SPA.Returned (firstn j ranking))).
    apply (return_at _ _ _ _ _ _ _ _ Hm Hj (verdicts_reach _ _ Hbefore)).
    now apply verdict_false.
Qed.

(** The call hands back [None] exactly when each of the [N - 2] iterations
    accepts its candidate; the list it then drops holds the [N - 2]
    best-ranked strategies. *)
Theorem None_iff_every_iteration_accepts (matrix : list (list num)) :
  SPA.correlation_matrix log_returns_df risk_free_rate = Ok matrix ->
  (SPA.superior_predictive_ability log_returns_df risk_free_rate null_sharpe alpha
   = Ok PyNone <->
   forall i, i < SPA.n_strategies log_returns_df - 2 ->
     Decision.verdict log_returns_df risk_free_rate null_sharpe alpha matrix i
     = Ok true) /\
  (SPA.superior_predictive_ability log_returns_df risk_free_rate null_sharpe alpha
   = Ok PyNone ->
   SPA.run log_returns_df risk_free_rate null_sharpe alpha
   = Ok (SPA.Exhausted
           (firstn (SPA.n_strategies log_returns_df - 2)
                   (SPA.strategies_list log_returns_df risk_free_rate))) /\
   List.length
     (firstn (SPA.n_strategies log_returns_df - 2)
             (SPA.strategies_list log_returns_df risk_free_rate))
   = SPA.n_strategies log_returns_df - 2).
Proof.
  intros Hm.
  assert (Hnone : call = Ok PyNone -> reaches matrix (N - 2) (firstn (N - 2) ranking)).
  { intros Hcall.
    destruct (run_total log_returns_df risk_free_rate null_sharpe alpha) as (o & Ho).
    rewrite (call_of_run _ _ _ _ _ Ho) in Hcall.
    destruct o as [value|acc]; [discriminate|].
    pose proof (run_Ok _ _ _ _ _ _ Hm Ho) as Hr.
    change (reaches matrix (N - 2) acc) in Hr.
    now destruct (reaches_prefix _ _ _ _ _ _ _ Hr) as (<- & _). }
  split; [split|].
  - intros Hcall. exact (reach_verdicts _ _ _ (Hnone Hcall)).
  - intros Hall. exact (exhausted_returns_None _ _ _ _ _ _ Hm (verdicts_reach _ _ Hall)).
  - intros Hcall. specialize (Hnone Hcall). split.
    + exact (exhausted_at _ _ _ _ _ _ Hm Hnone).
    + destruct (reaches_prefix _ _ _ _ _ _ _ Hnone) as (_ & Hlen).
      now rewrite length_firstn, Nat.min_l.
Qed.

(** *** What the loop reads of the matrix *)

Lemma iteration_reads (matrix matrix' : list (list num)) (i : nat) :
  Decision.read_entries matrix i = Decision.read_entries matrix' i ->
  iteration matrix i = iteration matrix' i.
Proof.
  unfold Decision.read_entries, SPA.iteration, getitem. intros H.
  destruct (series_select sharpe (skipn i ranking)) as [ssr|e]; cbn [bind];
    [|reflexivity].
  destruct (nth_error matrix i) as [row|], (nth_error matrix' i) as [row'|];
    cbn [option_map] in H; try discriminate; cbn [bind]; [|reflexivity].
  injection H as H. now rewrite H.
Qed.

(** Of the correlation matrix the loop reads, in iteration [i], the entries
    of row [i] to the right of the diagonal and nothing else: two matrices
    that agree there, for the iterations of the loop, give the same outcome. *)
Theorem loop_reads_above_diagonal (matrix matrix' : list (list num))
  (acc : list string) :
  (forall i, i < SPA.n_strategies log_returns_df - 2 ->
     Decision.read_entries matrix i = Decision.read_entries matrix' i) ->
  SPA.for_range (SPA.body log_returns_df risk_free_rate null_sharpe alpha matrix)
    (seq 0 (SPA.n_strategies log_returns_df - 2)) acc
  = SPA.for_range (SPA.body log_returns_df risk_free_rate null_sharpe alpha matrix')
      (seq 0 (SPA.n_strategies log_returns_df - 2)) acc.
Proof.
  intros H.
  assert (Hall : Forall (fun i => Decision.read_entries matrix i
                                  = Decision.read_entries matrix' i) (seq 0 (N - 2))).
  { apply Forall_forall. intros i Hi. apply in_seq in Hi. apply H. lia. }
  clear H. revert acc.
  induction Hall as [|i range Hi _ IH]; intros acc; cbn [SPA.for_range]; [reflexivity|].
  unfold SPA.body at 1 3. rewrite (iteration_reads _ _ _ Hi).
  fold (body matrix' i acc).
  destruct (body matrix' i acc) as [[acc'|value]|e]; cbn [bind]; [apply IH | reflexivity..].
Qed.

End Further.

(** ** Panels the function does not check

    Nothing in the function inspects its input.  This part follows a call
    on binary64 numbers, where a missing value is the number [nan]: the sum,
    difference, product and quotient of [nan] and any number is [nan], and
    every comparison with [nan] is false. *)

Section NotANumber.
Local Open Scope float_scope.

Lemma nan_add_l (x : float) : nan + x = nan.
Proof. apply Prim2SF_inj. rewrite add_spec. reflexivity. Qed.

Lemma nan_add_r (x : float) : x + nan = nan.
Proof.
  apply Prim2SF_inj. rewrite add_spec.
  change (Prim2SF nan) with S754_nan. now destruct (Prim2SF x).
Qed.

Lemma nan_sub_l (x : float) : nan - x = nan.
Proof. apply Prim2SF_inj. rewrite sub_spec. reflexivity. Qed.

Lemma nan_sub_r (x : float) : x - nan = nan.
Proof.
  apply Prim2SF_inj. rewrite sub_spec.
  change (Prim2SF nan) with S754_nan. now destruct (Prim2SF x).
Qed.

Lemma nan_mul_l (x : float) : nan * x = nan.
Proof. apply Prim2SF_inj. rewrite mul_spec. reflexivity. Qed.

Lemma nan_mul_r (x : float) : x * nan = nan.
Proof.
  apply Prim2SF_inj. rewrite mul_spec.
  change (Prim2SF nan) with S754_nan. now destruct (Prim2SF x).
Qed.

Lemma nan_div_l (x : float) : nan / x = nan.
Proof. apply Prim2SF_inj. rewrite div_spec. reflexivity. Qed.

Lemma nan_div_r (x : float) : x / nan = nan.
Proof.
  apply Prim2SF_inj. rewrite div_spec.
  change (Prim2SF nan) with S754_nan. now destruct (Prim2SF x).
Qed.

(** [x > nan] is false. *)
Lemma nan_gt_r (x : float) : Binary64.gt x nan = false.
Proof. unfold Binary64.gt. rewrite ltb_spec. reflexivity. Qed.

(** A sum, and so a mean, over entries one of which is [nan]. *)
Lemma nan_fold_add (l : list float) : fold_left PrimFloat.add l nan = nan.
Proof.
  induction l as [|x l IH]; cbn [fold_left]; [reflexivity|]. now rewrite nan_add_l.
Qed.

Lemma nan_sum (l : list float) : In nan l -> Binary64.sum l = nan.
Proof.
  unfold Binary64.sum. generalize 0.
  induction l as [|x l IH]; intros acc; cbn [In fold_left]; [tauto|].
  intros [->|Hin]; [rewrite nan_add_r; apply nan_fold_add | now apply IH].
Qed.

Lemma nan_mean (l : list float) : In nan l -> Binary64.mean l = nan.
Proof. intros H. unfold Binary64.mean. rewrite (nan_sum l H). apply nan_div_l. Qed.

(** Centring a column with a missing value leaves [nan] in every row. *)
Lemma nan_centre (l : list float) :
  In nan l -> Binary64.centre l = map (fun _ => nan) l.
Proof.
  intros H. unfold Binary64.centre. rewrite (nan_mean l H).
  apply map_ext. intros x. apply nan_sub_r.
Qed.

Lemma centre_not_nil (l : list float) : l <> [] -> Binary64.centre l <> [].
Proof. destruct l; [congruence | discriminate]. Qed.

Lemma nan_dot_l (a b : list float) :
  a <> [] -> b <> [] -> Binary64.dot (map (fun _ => nan) a) b = nan.
Proof.
  destruct a as [|x a], b as [|y b]; try congruence. intros _ _.
  unfold Binary64.dot. cbn [map combine fst snd]. apply nan_sum. left.
  apply nan_mul_l.
Qed.

Lemma nan_dot_r (a b : list float) :
  a <> [] -> b <> [] -> Binary64.dot a (map (fun _ => nan) b) = nan.
Proof.
  destruct a as [|x a], b as [|y b]; try congruence. intros _ _.
  unfold Binary64.dot. cbn [map combine fst snd]. apply nan_sum. left.
  apply nan_mul_r.
Qed.

(** The correlations of a column with a missing value are [nan]; the mean
    of row 0 of the matrix right of the diagonal runs over one of them. *)
Lemma nan_corrcoef_row (first : list float) (rest : list (list float))
  (col : list float) :
  rest <> [] ->
  Forall (fun col' => col' <> []) (first :: rest) ->
  In col (first :: rest) ->
  In nan col ->
  exists row,
    nth_error (Binary64.corrcoef (first :: rest)) 0 = Some row /\
    Binary64.mean (skipn 1 row) = nan.
Proof.
  intros Hrest Hfull Hin Hnan. unfold Binary64.corrcoef.
  cbn [map nth_error]. eexists. split; [reflexivity|].
  cbn [skipn]. apply nan_mean. rewrite map_map.
  rewrite Forall_forall in Hfull.
  assert (Hfirst : first <> []) by (apply Hfull; now left).
  destruct Hin as [<-|Hin].
  - destruct rest as [|second rest]; [congruence|]. cbn [map]. left.
    rewrite (nan_centre first Hnan), nan_dot_l, !nan_div_l; [reflexivity | exact Hfirst|].
    apply centre_not_nil, Hfull. right. now left.
  - apply in_map_iff. exists col. split; [|exact Hin].
    rewrite (nan_centre col Hnan), nan_dot_r, !nan_div_l;
      [reflexivity | now apply centre_not_nil|].
    apply Hfull. now right.
Qed.

End NotANumber.

Section Unchecked.
Variable log_returns_df : @DataFrame binary64.
Variables risk_free_rate null_sharpe alpha : float.

Local Abbreviation ranking := (SPA.strategies_list log_returns_df risk_free_rate).
Local Abbreviation iteration := (SPA.iteration log_returns_df risk_free_rate null_sharpe).
Local Abbreviation T := (SPA.n log_returns_df).
Local Abbreviation N := (SPA.n_strategies log_returns_df).
Local Abbreviation call :=
  (SPA.superior_predictive_ability log_returns_df risk_free_rate null_sharpe alpha).

(** With three or more strategies the loop has a first iteration, and its
    quantities are computed without an exception. *)
Lemma first_iteration_Ok :
  3 <= N ->
  exists matrix it,
    SPA.correlation_matrix log_returns_df risk_free_rate = Ok matrix /\
    iteration matrix 0 = Ok it.
Proof.
  intros HN.
  destruct (correlation_matrix_Ok log_returns_df risk_free_rate) as (matrix & Hm).
  destruct (correlation_matrix_square _ _ _ Hm) as (Hlen & _); [lia|].
  destruct (iteration_total log_returns_df risk_free_rate null_sharpe matrix 0)
    as (it & Hit); [lia|].
  now exists matrix, it.
Qed.

(** No statistic is greater than a threshold that is [nan]: the first
    iteration finds [k_tilde = 0] and the call returns the empty list. *)
Lemma nan_threshold_returns_empty (matrix : list (list float)) (it : SPA.Iteration) :
  SPA.correlation_matrix log_returns_df risk_free_rate = Ok matrix ->
  3 <= N ->
  iteration matrix 0 = Ok it ->
  SPA.initial_threshold it = nan ->
  SPA.k_tilde it = 0 /\ call = Ok (PyList []).
Proof.
  intros Hm HN Hit Hnan.
  assert (Hk : SPA.k_tilde it = 0).
  { destruct (iteration_Ok _ _ _ _ _ _ Hit)
      as (_ & _ & _ & _ & _ & _ & _ & _ & _ & _ & _ & Hp & Hk).
    rewrite Hk, Hp, Hnan. unfold index. rewrite length_map. clear Hp Hk.
    induction (SPA.xi it) as [|p s IH]; [reflexivity|].
    cbn [filter]. change (snd p >? nan)%num with (Binary64.gt (snd p) nan).
    rewrite nan_gt_r. exact IH. }
  split; [exact Hk|].
  destruct (body_cases log_returns_df risk_free_rate null_sharpe alpha matrix 0 it [] Hit) as [(_ & Hb)|(Hk' & _)];
    [|contradiction].
  apply (call_of_run log_returns_df risk_free_rate null_sharpe alpha (SPA.Returned [])).
  apply (return_at log_returns_df risk_free_rate null_sharpe alpha matrix 0 [] [] Hm);
    [lia | reflexivity | exact Hb].
Qed.

(** Two periods: [ln (ln 2)] is negative, its square root is [nan], and so
    is the threshold, whatever [c] and [null_sharpe] are. *)
Lemma two_periods_threshold (matrix : list (list float)) (i : nat)
  (it : SPA.Iteration) :
  T = 2 -> iteration matrix i = Ok it -> SPA.initial_threshold it = nan.
Proof.
  intros HT Hit.
  destruct (iteration_Ok _ _ _ _ _ _ Hit)
    as (_ & _ & _ & _ & _ & _ & _ & _ & _ & _ & Hthr & _).
  rewrite Hthr, HT.
  change (SPA.c it * null_sharpe - nan = nan)%float. apply nan_sub_r.
Qed.

(** The columns from which the matrix is built, in ranked order. *)
Lemma correlation_matrix_columns (matrix : list (list float)) :
  SPA.correlation_matrix log_returns_df risk_free_rate = Ok matrix ->
  exists ranked,
    Forall2 (fun name col => loc (columns log_returns_df) name = Ok col) ranking ranked /\
    matrix = Binary64.corrcoef ranked.
Proof.
  unfold SPA.correlation_matrix, frame_select_values. intros H.
  destruct (mapM (loc (columns log_returns_df)) ranking) as [ranked|] eqn:Hr;
    cbn [bind] in H; [|discriminate].
  injection H as <-. exists ranked. split; [|reflexivity].
  now apply mapM_Forall2.
Qed.

(** A missing value anywhere in a panel of full columns: the mean
    correlation of the first iteration is [nan], and with it [c] and the
    threshold. *)
Lemma missing_value_threshold (matrix : list (list float)) (it : SPA.Iteration)
  (name : string) (col : list float) :
  1 <= T ->
  Forall (fun col' => List.length (snd col') = T) (columns log_returns_df) ->
  2 <= N ->
  In (name, col) (columns log_returns_df) ->
  In nan col ->
  SPA.correlation_matrix log_returns_df risk_free_rate = Ok matrix ->
  iteration matrix 0 = Ok it ->
  SPA.rho it = nan /\ SPA.initial_threshold it = nan.
Proof.
  intros HT Hrect HN Hcol Hnan Hm Hit.
  destruct (correlation_matrix_columns _ Hm) as (ranked & Hranked & ->).
  assert (Hlen : List.length ranked = N).
  { rewrite <- (Forall2_length Hranked). apply strategies_list_length. }
  assert (Hfull : Forall (fun col' => col' <> []) ranked).
  { apply Forall_forall. intros col' Hin.
    apply (Forall2_flip) in Hranked.
    assert (Hex : exists name', loc (columns log_returns_df) name' = Ok col').
    { clear -Hranked Hin. induction Hranked as [|y x l l' Hxy _ IH]; [destruct Hin|].
      destruct Hin as [<-|Hin]; [now exists x | now apply IH]. }
    destruct Hex as (name' & Hloc). apply loc_Ok_In in Hloc.
    rewrite Forall_forall in Hrect. specialize (Hrect _ Hloc). cbn [snd] in Hrect.
    intros ->. cbn [List.length] in Hrect. lia. }
  assert (Hin : In col ranked).
  { assert (Hname : In name ranking).
    { apply (Permutation_in _
               (Permutation_sym (strategies_list_perm log_returns_df risk_free_rate))).
      apply in_map_iff. now exists (name, col). }
    assert (Hloc : loc (columns log_returns_df) name = Ok col).
    { apply loc_NoDup; [|exact Hcol]. apply distinct_NoDup, columns_distinct. }
    clear -Hranked Hname Hloc. induction Hranked as [|x y l l' Hxy _ IH]; [destruct Hname|].
    destruct Hname as [->|Hname]; [left; congruence | right; now apply IH]. }
  destruct ranked as [|first [|second rest]]; cbn [List.length] in Hlen; try lia.
  destruct (nan_corrcoef_row first (second :: rest) col) as (row & Hrow & Hmean);
    [discriminate | exact Hfull | exact Hin | exact Hnan|].
  destruct (iteration_Ok _ _ _ _ _ _ Hit)
    as (_ & _ & _ & _ & _ & (row' & Hrow' & Hrho) & Hc & _ & _ & _ & Hthr & _).
  pose proof (eq_trans (eq_sym Hrow) Hrow') as Hsame. injection Hsame as <-.
  assert (Hrho' : SPA.rho it = nan) by (rewrite Hrho; exact Hmean).
  split; [exact Hrho'|].
  rewrite Hthr, Hc, Hrho'.
  change (SPA.one / PrimFloat.sqrt
            (SPA.one + (of_int (Z.of_nat (SPA.subset_n_strategies it)) - SPA.one) * nan)
          * null_sharpe
          - np_sqrt (of_int 2 * np_log (np_log (of_int (Z.of_nat T))) / of_int (Z.of_nat T))
          = nan)%float.
  now rewrite nan_mul_r, nan_add_r, nan_div_r, nan_mul_l, nan_sub_l.
Qed.

End Unchecked.

(** C9, as the code has it.  The function validates nothing, and on a panel
    with pairwise distinct column names these malformed inputs raise no
    error.  With fewer than two strategies the loop runs no iteration and
    the call hands back [None].  With two periods, the only length
    [2 <= T <= e], and three or more strategies, the threshold of the first
    iteration is [nan], no statistic passes it, and the call returns the
    empty list.  With a missing value ([nan]) in a panel of two or more
    periods and three or more strategies, the mean correlation and the
    threshold of the first iteration are [nan], and the call returns the
    empty list. *)
Theorem malformed_panel_raises_no_error :
  (forall (NUM : Numeric) (log_returns_df : DataFrame)
          (risk_free_rate null_sharpe alpha : num),
     SPA.n_strategies log_returns_df < 2 ->
     seq 0 (SPA.n_strategies log_returns_df - 2) = [] /\
     SPA.run log_returns_df risk_free_rate null_sharpe alpha = Ok (SPA.Exhausted []) /\
     SPA.superior_predictive_ability log_returns_df risk_free_rate null_sharpe alpha
     = Ok PyNone) /\
  (forall (log_returns_df : @DataFrame binary64)
          (risk_free_rate null_sharpe alpha : float),
     SPA.n log_returns_df = 2 ->
     3 <= SPA.n_strategies log_returns_df ->
     exists matrix it,
       SPA.correlation_matrix log_returns_df risk_free_rate = Ok matrix /\
       SPA.iteration log_returns_df risk_free_rate null_sharpe matrix 0 = Ok it /\
       SPA.initial_threshold it = nan /\
       SPA.k_tilde it = 0 /\
       SPA.superior_predictive_ability log_returns_df risk_free_rate null_sharpe alpha
       = Ok (PyList [])) /\
  (forall (log_returns_df : @DataFrame binary64)
          (risk_free_rate null_sharpe alpha : float)
          (name : string) (col : list float),
     2 <= SPA.n log_returns_df ->
     Forall (fun col' => List.length (snd col') = SPA.n log_returns_df)
            (columns log_returns_df) ->
     3 <= SPA.n_strategies log_returns_df ->
     In (name, col) (columns log_returns_df) ->
     In nan col ->
     exists matrix it,
       SPA.correlation_matrix log_returns_df risk_free_rate = Ok matrix /\
       SPA.iteration log_returns_df risk_free_rate null_sharpe matrix 0 = Ok it /\
       SPA.rho it = nan /\
       SPA.initial_threshold it = nan /\
       SPA.k_tilde it = 0 /\
       SPA.superior_predictive_ability log_returns_df risk_free_rate null_sharpe alpha
       = Ok (PyList [])).
Proof.
  split; [|split].
  - intros NUM df rf null alpha HN.
    split; [now replace (SPA.n_strategies df - 2) with 0 by lia|].
    assert (Hrun : SPA.run df rf null alpha = Ok (SPA.Exhausted []))
      by (apply short_panel_run; lia).
    split; [exact Hrun|]. exact (call_of_run _ _ _ _ _ Hrun).
  - intros df rf null alpha HT HN.
    destruct (first_iteration_Ok df rf null HN) as (matrix & it & Hm & Hit).
    pose proof (two_periods_threshold df rf null matrix 0 it HT Hit) as Hnan.
    destruct (nan_threshold_returns_empty df rf null alpha matrix it Hm HN Hit Hnan)
      as (Hk & Hcall).
    now exists matrix, it.
  - intros df rf null alpha name col HT Hrect HN Hcol Hmissing.
    destruct (first_iteration_Ok df rf null HN) as (matrix & it & Hm & Hit).
    destruct (missing_value_threshold df rf null matrix it name col)
      as (Hrho & Hnan); try assumption; try lia.
    destruct (nan_threshold_returns_empty df rf null alpha matrix it Hm HN Hit Hnan)
      as (Hk & Hcall).
    now exists matrix, it.
Qed.

(** ** The theorems at work on the example panels *)

Import Examples.
Local Open Scope float_scope.
Set Warnings "-inexact-float".

(** Runs [k] on the record of an iteration, evaluated beforehand. *)
Ltac with_iteration r k :=
  let v := eval vm_compute in r in
  lazymatch v with Ok ?it => k it end.

Lemma panel_matrix_eq : SPA.correlation_matrix panel 0 = Ok panel_matrix.
Proof. vm_compute. reflexivity. Qed.

(** C1.  [panel] is a valid panel (8 periods, 4 strategies, no missing value,
    no constant column).  At [alpha = 0.2] the two iterations accept A and
    B, the loop runs to its end, and the call hands back [None] and not the
    list [["A"; "B"]]. *)
Theorem all_accepted_returns_None :
  SPA.n panel = 8%nat /\ SPA.n_strategies panel = 4%nat /\
  SPA.strategies_list panel 0 = ["A"; "B"; "C"; "D"] /\
  SPA.run panel 0 0 0.2 = Ok (SPA.Exhausted ["A"; "B"]) /\
  SPA.superior_predictive_ability panel 0 0 0.2 = Ok PyNone.
Proof.
  split; [reflexivity|]. split; [reflexivity|].
  split; [vm_compute; reflexivity|].
  assert (Hreach : SPA.reaches panel 0 0 0.2 panel_matrix 2 ["A"; "B"])
    by (vm_compute; reflexivity).
  split.
  - exact (exhausted_at panel 0 0 0.2 panel_matrix _ panel_matrix_eq Hreach).
  - exact (exhausted_returns_None panel 0 0 0.2 panel_matrix _ panel_matrix_eq Hreach).
Qed.

(** C2 on the panel [pair]. *)
Lemma two_strategies_return_None_witness :
  SPA.n_strategies pair = 2%nat /\
  SPA.superior_predictive_ability pair 0 0 0.05 = Ok PyNone.
Proof.
  split; [reflexivity|].
  apply (two_strategies_return_None pair 0 0 0.05). reflexivity.
Defined.

(** C3 on [panel] at [alpha = 0.05].  Iteration 0 has three passed
    strategies and a statistic of about 4.63 for A, above the critical value
    of about 2.13: A is appended and iteration 1 is reached.  Iteration 1
    has three passed strategies again and about 1.81 for B, below 2.13: the
    call returns [["A"]]. *)
Lemma bonferroni_decision_witness :
  SPA.reaches panel 0 0 0.05 panel_matrix 1 ["A"] /\
  SPA.superior_predictive_ability panel 0 0 0.05 = Ok (PyList ["A"]).
Proof.
  assert (Hreach : SPA.reaches panel 0 0 0.05 panel_matrix 1 ["A"]).
  { with_iteration (SPA.iteration panel 0 0 panel_matrix 0) ltac:(fun it =>
      destruct (bonferroni_decision panel 0 0 0.05 panel_matrix 0 [] it)
        as (m & top & z & Hmax & Htop & Hz & Hnext & _)).
    - exact panel_matrix_eq.
    - vm_compute. apply le_S, le_n.
    - vm_compute. reflexivity.
    - reflexivity.
    - vm_compute. discriminate.
    - vm_compute in Htop. injection Htop as <-. apply Hnext.
      subst z. vm_compute in Hmax. injection Hmax as <-. vm_compute. reflexivity. }
  split; [exact Hreach|].
  with_iteration (SPA.iteration panel 0 0 panel_matrix 1) ltac:(fun it =>
    destruct (bonferroni_decision panel 0 0 0.05 panel_matrix 1 ["A"] it)
      as (m & top & z & Hmax & _ & Hz & _ & Hreturn)).
  - exact panel_matrix_eq.
  - vm_compute. apply le_n.
  - exact Hreach.
  - reflexivity.
  - vm_compute. discriminate.
  - apply Hreturn. subst z. vm_compute in Hmax. injection Hmax as <-.
    vm_compute. reflexivity.
Defined.

(** C6 on [panel] with [null_sharpe = 3]: iteration 0 accepts A, in
    iteration 1 no statistic is above the threshold of about 1.91, and the
    call returns [["A"]]. *)
Lemma no_passed_strategy_stops_witness :
  SPA.reaches panel 0 3 0.05 panel_matrix 1 ["A"] /\
  SPA.superior_predictive_ability panel 0 3 0.05 = Ok (PyList ["A"]).
Proof.
  assert (Hreach : SPA.reaches panel 0 3 0.05 panel_matrix 1 ["A"])
    by (vm_compute; reflexivity).
  split; [exact Hreach|].
  with_iteration (SPA.iteration panel 0 3 panel_matrix 1) ltac:(fun it =>
    destruct (no_passed_strategy_stops panel 0 3 0.05 panel_matrix 1 ["A"] it)
      as (_ & _ & Hcall)).
  - exact panel_matrix_eq.
  - vm_compute. apply le_n.
  - exact Hreach.
  - reflexivity.
  - vm_compute. reflexivity.
  - exact Hcall.
Defined.

(** C4 on iteration 1 of [panel]: the subset B, C, D. *)
Lemma adjusted_statistic_witness :
  exists it,
    SPA.iteration panel 0 0 panel_matrix 1 = Ok it /\
    SPA.subset_n_strategies it = 3%nat /\
    SPA.xi it =
      map (fun p => (fst p,
                     SPA.c it * SPA.zeta_bar it
                     + SPA.one / PrimFloat.sqrt (SPA.one - SPA.rho it)
                       * (snd p - SPA.zeta_bar it)))
          (SPA.subset_sharpe_ratios it).
Proof.
  with_iteration (SPA.iteration panel 0 0 panel_matrix 1) ltac:(fun it =>
    exists it;
    destruct (adjusted_statistic panel 0 0 panel_matrix 1 it)
      as (_ & Hsize & _ & _ & _ & _ & Hxi)).
  - exact panel_matrix_eq.
  - reflexivity.
  - split; [reflexivity|]. split; [exact Hsize | exact Hxi].
Defined.

(** C5 on iteration 0 of [panel] with [null_sharpe = 3]: only A is above the
    threshold. *)
Lemma threshold_and_passed_witness :
  exists it,
    SPA.iteration panel 0 3 panel_matrix 0 = Ok it /\
    SPA.initial_threshold it
    = SPA.c it * 3 - PrimFloat.sqrt (2 * Binary64.log (Binary64.log 8) / 8) /\
    SPA.strategies_passed_list it = ["A"] /\
    SPA.k_tilde it = 1%nat.
Proof.
  with_iteration (SPA.iteration panel 0 3 panel_matrix 0) ltac:(fun it =>
    exists it;
    destruct (threshold_and_passed panel 0 3 panel_matrix 0 it)
      as (_ & Hthr & Hpassed & _ & _ & Hk)).
  - reflexivity.
  - split; [reflexivity|]. split; [exact Hthr|]. split; [|exact Hk].
    rewrite Hpassed. vm_compute. reflexivity.
Defined.

(** C10 on [panel] at [alpha = 0.05]: the call returns [["A"]]; C and D, of
    ranks 2 and 3, are not in it. *)
Lemma returned_list_bounds_witness :
  SPA.superior_predictive_ability panel 0 0 0.05 = Ok (PyList ["A"]) /\
  (List.length ["A"] <= SPA.n_strategies panel - 2)%nat /\
  ~ In "C" ["A"] /\ ~ In "D" ["A"].
Proof.
  assert (Hcall : SPA.superior_predictive_ability panel 0 0 0.05 = Ok (PyList ["A"]))
    by (vm_compute; reflexivity).
  split; [exact Hcall|].
  destruct (returned_list_bounds panel 0 0 0.05 ["A"] Hcall) as (Hlen & _ & Hlast).
  split; [exact Hlen|].
  split.
  - apply (Hlast 2%nat); [vm_compute; apply le_n | vm_compute; reflexivity].
  - apply (Hlast 3%nat); [vm_compute; apply le_S, le_n | vm_compute; reflexivity].
Defined.

(** The critical values of [panel] at the levels 0.05 and 0.2: about 1.64
    and 0.84 for one passed strategy, 1.96 and 1.28 for two, 2.13 and 1.50
    for three, 2.24 and 1.64 for four. *)
Lemma panel_levels_ordered : critical_values_ordered panel 0.05 0.2.
Proof.
  intros k Hk. change (SPA.n_strategies panel) with 4%nat in Hk.
  destruct k as [|[|[|[|[|k]]]]]; try (exfalso; lia); vm_compute; reflexivity.
Qed.

(** C8.  On [panel], [alpha] goes from 0.05 to 0.2 and every critical value
    goes down.  At 0.05 the call returns [["A"]].  At 0.2 the loop accepts A
    and B and runs to its end, where no [return] statement stands: the call
    hands back [None], and A, accepted at 0.05, is in no returned list. *)
Theorem larger_alpha_returns_None :
  (0.05 <? 0.2) = true /\
  critical_values_ordered panel 0.05 0.2 /\
  SPA.superior_predictive_ability panel 0 0 0.05 = Ok (PyList ["A"]) /\
  SPA.run panel 0 0 0.2 = Ok (SPA.Exhausted ["A"; "B"]) /\
  SPA.superior_predictive_ability panel 0 0 0.2 = Ok PyNone.
Proof.
  split; [reflexivity|]. split; [exact panel_levels_ordered|].
  split; [vm_compute; reflexivity|].
  split; vm_compute; reflexivity.
Qed.

(** X9 on [panel], from [alpha = 0.05] to [alpha = 0.2]: the call returns
    [["A"]] at the first level; at the second the loop accepts A and B and
    the call hands back [None]. *)
Lemma returned_list_monotone_in_alpha_witness :
  critical_values_ordered panel 0.05 0.2 /\
  SPA.superior_predictive_ability panel 0 0 0.05 = Ok (PyList ["A"]) /\
  ((exists l2 j,
      SPA.superior_predictive_ability panel 0 0 0.2 = Ok (PyList l2) /\
      ["A"] = firstn j l2) \/
   (SPA.superior_predictive_ability panel 0 0 0.2 = Ok PyNone /\
    exists acc j, SPA.run panel 0 0 0.2 = Ok (SPA.Exhausted acc) /\
                  ["A"] = firstn j acc)).
Proof.
  assert (Hcall : SPA.superior_predictive_ability panel 0 0 0.05 = Ok (PyList ["A"]))
    by (vm_compute; reflexivity).
  split; [exact panel_levels_ordered|]. split; [exact Hcall|].
  exact (returned_list_monotone_in_alpha panel 0 0 0.05 0.2 ["A"]
           panel_levels_ordered Hcall).
Defined.

(** X1 on [panel]. *)
Lemma call_never_raises_witness :
  (2 <= SPA.n panel)%nat /\
  exists v, SPA.superior_predictive_ability panel 0 0 0.05 = Ok v.
Proof.
  assert (HT : (2 <= SPA.n panel)%nat) by (vm_compute; lia).
  split; [exact HT|].
  exact (proj1 (call_never_raises panel 0 0 0.05 HT)).
Defined.

(** C9 on the panels [single] (one strategy), [two_periods] (two periods,
    three strategies) and [gap] (a missing return of B): no call raises an
    error; the first hands back [None], the other two the empty list. *)
Lemma malformed_panel_raises_no_error_witness :
  SPA.superior_predictive_ability single 0 0 0.05 = Ok PyNone /\
  SPA.superior_predictive_ability two_periods 0 0 0.05 = Ok (PyList []) /\
  SPA.superior_predictive_ability gap 0 0 0.05 = Ok (PyList []).
Proof.
  destruct malformed_panel_raises_no_error as (Hfew & Hshort & Hmissing).
  split; [|split].
  - apply (Hfew binary64 single 0 0 0.05). vm_compute. lia.
  - destruct (Hshort two_periods 0 0 0.05) as (matrix & it & _ & _ & _ & _ & Hcall);
      [reflexivity | vm_compute; lia | exact Hcall].
  - destruct (Hmissing gap 0 0 0.05 "B" [0.03; 0.01; nan; 0.02; 0.03; 0.06; 0.01; 0.03])
      as (matrix & it & _ & _ & _ & _ & _ & Hcall).
    + vm_compute. lia.
    + repeat constructor.
    + vm_compute. lia.
    + do 3 right. left. reflexivity.
    + do 2 right. left. reflexivity.
    + exact Hcall.
Defined.

(** C9 as stated fails.  The panel [single] has fewer than two strategies,
    and the call raises nothing.  The panel [two_periods] has [T = 2 <= e]:
    the threshold is [nan], no statistic compares greater, and the call
    returns the empty list. *)
Lemma malformed_input_no_error :
  SPA.n_strategies single = 1%nat /\
  SPA.superior_predictive_ability single 0 0 0.05 = Ok PyNone /\
  SPA.n two_periods = 2%nat /\
  (exists matrix it,
     SPA.correlation_matrix two_periods 0 = Ok matrix /\
     SPA.iteration two_periods 0 0 matrix 0 = Ok it /\
     SPA.initial_threshold it = nan) /\
  SPA.superior_predictive_ability two_periods 0 0 0.05 = Ok (PyList []).
Proof.
  split; [reflexivity|]. split; [vm_compute; reflexivity|].
  split; [reflexivity|]. split; [|vm_compute; reflexivity].
  with_iteration (m <- SPA.correlation_matrix two_periods 0 ;; Ok m) ltac:(fun m =>
    exists m;
    with_iteration (SPA.iteration two_periods 0 0 m 0) ltac:(fun it => exists it)).
  split; [vm_compute; reflexivity|].
  split; [reflexivity | vm_compute; reflexivity].
Qed.

(** *** The further properties on [panel] *)

(** Iteration 1 selects the Sharpe ratios of B, C and D, in this order. *)
Lemma subset_sharpe_ratios_sorted_suffix_witness :
  exists it,
    SPA.iteration panel 0 0 panel_matrix 1 = Ok it /\
    SPA.subset_sharpe_ratios it = skipn 1 (sort_values (SPA.sharpe_ratios panel 0)) /\
    index (SPA.subset_sharpe_ratios it) = ["B"; "C"; "D"].
Proof.
  with_iteration (SPA.iteration panel 0 0 panel_matrix 1) ltac:(fun it => exists it).
  split; [reflexivity|]. split.
  - apply (subset_sharpe_ratios_sorted_suffix panel 0 0 panel_matrix 1). reflexivity.
  - vm_compute. reflexivity.
Defined.

(** With [null_sharpe = 3] only A passes the threshold of iteration 0. *)
Lemma passed_strategies_bounds_witness :
  exists it,
    SPA.iteration panel 0 3 panel_matrix 0 = Ok it /\
    SPA.strategies_passed_list it = ["A"] /\
    (SPA.k_tilde it <= SPA.n_strategies panel - 0)%nat /\
    NoDup (SPA.strategies_passed_list it) /\
    incl (SPA.strategies_passed_list it) (SPA.subset_strategies_list it).
Proof.
  with_iteration (SPA.iteration panel 0 3 panel_matrix 0) ltac:(fun it => exists it).
  split; [reflexivity|]. split; [vm_compute; reflexivity|].
  apply (passed_strategies_bounds panel 0 3 panel_matrix 0). reflexivity.
Defined.

(** At [alpha = 0.05] iteration 0 accepts and iteration 1 rejects: the call
    returns the ranking up to rank 1. *)
Lemma returned_list_first_rejection_witness :
  Decision.verdict panel 0 0 0.05 panel_matrix 0 = Ok true /\
  Decision.verdict panel 0 0 0.05 panel_matrix 1 = Ok false /\
  SPA.superior_predictive_ability panel 0 0 0.05 = Ok (PyList ["A"]).
Proof.
  assert (H0 : Decision.verdict panel 0 0 0.05 panel_matrix 0 = Ok true)
    by (vm_compute; reflexivity).
  assert (H1 : Decision.verdict panel 0 0 0.05 panel_matrix 1 = Ok false)
    by (vm_compute; reflexivity).
  split; [exact H0|]. split; [exact H1|].
  apply (proj2 (returned_list_first_rejection panel 0 0 0.05 panel_matrix ["A"]
                  panel_matrix_eq)).
  exists 1%nat. split; [vm_compute; apply le_n|]. split; [vm_compute; reflexivity|].
  split; [|exact H1].
  intros i Hi. apply Nat.lt_1_r in Hi. subst i. exact H0.
Defined.

(** At [alpha = 0.2] the two iterations accept: the call hands back [None]. *)
Lemma None_iff_every_iteration_accepts_witness :
  (forall i, (i < 2)%nat -> Decision.verdict panel 0 0 0.2 panel_matrix i = Ok true) /\
  SPA.superior_predictive_ability panel 0 0 0.2 = Ok PyNone.
Proof.
  assert (Hall : forall i, (i < 2)%nat ->
                           Decision.verdict panel 0 0 0.2 panel_matrix i = Ok true).
  { intros [|[|i]] Hi; [vm_compute; reflexivity.. | exfalso; lia]. }
  split; [exact Hall|].
  apply (proj2 (proj1 (None_iff_every_iteration_accepts panel 0 0 0.2 panel_matrix
                         panel_matrix_eq))).
  exact Hall.
Defined.

(** The loop on [panel] gives the same outcome on [panel_upper], which keeps
    of [panel_matrix] the entries right of the diagonal in rows 0 and 1. *)
Lemma loop_reads_above_diagonal_witness :
  panel_upper <> panel_matrix /\
  SPA.for_range (SPA.body panel 0 0 0.05 panel_matrix)
    (seq 0 (SPA.n_strategies panel - 2)) []
  = SPA.for_range (SPA.body panel 0 0 0.05 panel_upper)
      (seq 0 (SPA.n_strategies panel - 2)) [].
Proof.
  split; [discriminate|].
  apply (loop_reads_above_diagonal panel 0 0 0.05 panel_matrix panel_upper).
  intros [|[|i]] Hi; [vm_compute; reflexivity.. |].
  exfalso. change (SPA.n_strategies panel - 2)%nat with 2%nat in Hi. lia.
Defined.

(** The Sharpe ratio of B on [panel]: about 1.69. *)
Lemma sharpe_ratio_of_strategy_witness :
  loc (SPA.sharpe_ratios panel 0) "B"
  = Ok (Binary64.mean (map (fun v => v - 0) [0.03; 0.01; 0.05; 0.02; 0.03; 0.06; 0.01; 0.03])
        / Binary64.std (map (fun v => v - 0) [0.03; 0.01; 0.05; 0.02; 0.03; 0.06; 0.01; 0.03])).
Proof.
  apply (sharpe_ratio_of_strategy panel 0 "B").
  do 3 right. left. reflexivity.
Defined.
